(** * gttest_main: worker-action report and orchestration

    A shallow embedding of [gttest_main.py]: the two taxonomy tables of
    [display_detailed_events], the per-kind statistics loop of
    [display_events_summary], the row construction of
    [display_detailed_events], and the control flow of [analyze_video],
    [main] and the [__main__] block.  The analysis engine
    ([gttest_analysis.WorkerAnalysisSystem]) is imported by the script but
    is not part of the sources; its calls are oracles of the [Analyzer]
    record, and the event model, selector and script generator that live
    behind it are modelled from the written specification. *)

From Stdlib Require Import ZArith QArith Qcanon String List Sorted.
From Corelib Require Import PrimFloat FloatOps SpecFloat.
From stdpp Require Import base option list sorting gmap strings pretty.

Open Scope string_scope.
Open Scope Z_scope.
Open Scope list_scope.

(* ================================================================== *)
(** ** Python values and exceptions *)
(* ================================================================== *)

#[global] Instance Qc_eq_decision : EqDecision Qc := Qc_eq_dec.

Inductive result (E A : Type) : Type :=
  | Ok (a : A)
  | Raise (e : E).
Arguments Ok {E A} a.
Arguments Raise {E A} e.

#[global] Instance result_ret {E} : MRet (result E) := λ A a, Ok a.
#[global] Instance result_bind {E} : MBind (result E) := λ A B f m,
  match m with
  | Ok a => f a
  | Raise e => Raise e
  end.
#[global] Instance result_fmap {E} : FMap (result E) := λ A B f m,
  match m with
  | Ok a => Ok (f a)
  | Raise e => Raise e
  end.

(** Python's numbers, the [int] and [float] objects, with what the script
    does with them.  Each operation is given by what it returns:
    - [int_zero] is the literal [0];
    - [num_add a b] is [a + b], and [None] when it raises [OverflowError]
      (an [int] too large to be converted to a [float]);
    - [num_renders x] says whether the format code ['f'] renders [x]; it
      does not when it raises [OverflowError] (again an [int] too large);
    - [num_shows x] says whether [x] is written out in decimal, by
      [str] and by a format spec without a code; it is not when that
      raises [ValueError] (an [int] of more digits than the interpreter
      converts);
    - [num_lt a b] is [a < b];
    - [num_key] tells which numbers are one and the same dict key: two
      numbers are found under the same key exactly when their [num_key]
      agree.
    Two facts about the literal [0] are used: [0 + 0] is [0], and [0]
    is rendered.  Nothing more is assumed, so what is proved holds for
    the rounding of [float] and the exactness of [int] as they are. *)
Class Numbers : Type := {
  number : Type;
  int_zero : number;
  num_add : number → number → option number;
  num_renders : number → bool;
  num_shows : number → bool;
  num_lt : number → number → bool;
  numkey : Type;
  numkey_eq_dec :: EqDecision numkey;
  num_key : number → numkey;
  int_zero_add : num_add int_zero int_zero = Some int_zero;
  int_zero_renders : num_renders int_zero = true
}.

#[global] Instance spec_float_eq_decision : EqDecision spec_float.
Proof. solve_decision. Defined.

(** The key of a [float]: its value, the two zeros being equal. *)
Definition float_key (f : float) : spec_float :=
  match Prim2SF f with
  | S754_zero _ => S754_zero false
  | k => k
  end.

(** The numbers of the sample runs: IEEE doubles.  Addition is the
    rounded addition of [float], which never raises, every [float] is
    rendered and written out, and the literal [0] is taken as [0.0],
    which adds and prints as [0] does.  The sample runs use no NaN, the
    one [float] that is not the same key as itself. *)
Definition float_numbers : Numbers :=
  {| number := float;
     int_zero := 0%float;
     num_add := λ a b, Some (a + b)%float;
     num_renders := λ _, true;
     num_shows := λ _, true;
     num_lt := PrimFloat.ltb;
     numkey := spec_float;
     num_key := float_key;
     int_zero_add := eq_refl;
     int_zero_renders := eq_refl |}.

(** Numbers that are all [int]: addition is exact and never raises; an
    [int] is converted to a [float] for the format code ['f'] when it
    rounds to a finite one, that is below [2^1024 - 2^970] in absolute
    value, and is written out in decimal up to 4300 digits. *)
Definition int_numbers : Numbers :=
  {| number := Z;
     int_zero := 0;
     num_add := λ a b, Some (a + b);
     num_renders := λ z, bool_decide (Z.abs z < 2 ^ 1024 - 2 ^ 970);
     num_shows := λ z, bool_decide (Z.abs z < 10 ^ 4300);
     num_lt := Z.ltb;
     numkey := Z;
     num_key := λ z, z;
     int_zero_add := eq_refl;
     int_zero_renders := eq_refl |}.

Section model.
Context `{N : Numbers}.

(** The values found in an event dict: [None], strings and numbers. *)
Inductive pyval : Type :=
  | VNone
  | VStr (s : string)
  | VNum (n : number).

(** A value as a dict key.  Python finds a key by [==] (and hash), so
    [1] and [1.0] are one key. *)
Inductive pykey : Type :=
  | KNone
  | KStr (s : string)
  | KNum (k : numkey).

#[global] Instance pykey_eq_decision : EqDecision pykey.
Proof. solve_decision. Defined.

Definition key_of (v : pyval) : pykey :=
  match v with
  | VNone => KNone
  | VStr s => KStr s
  | VNum n => KNum (num_key n)
  end.

(** Exceptions (subclasses of [Exception]) raised by the modelled
    statements. *)
Inductive exn : Type :=
  | KeyError (key : pyval)      (* [d[key]] on an absent key *)
  | TypeError                   (* [0 + "x"], [sorted] on mixed keys *)
  | ValueError                  (* format code ['f'] on a string *)
  | OverflowError               (* an [int] too large for a [float] *)
  | OtherError (msg : string).  (* raised by a collaborator *)

(** An event is a dict with string keys. *)
Local Abbreviation event := (gmap string pyval).

(** [d[key]] *)
Definition getitem (d : gmap string pyval) (key : string) : result exn pyval :=
  match d !! key with
  | Some v => Ok v
  | None => Raise (KeyError (VStr key))
  end.

(** [d.get(key, dflt)] *)
Definition get (d : gmap string pyval) (key : string) (dflt : pyval) : pyval :=
  default dflt (d !! key).

(** [{"type": k, "start_time": s, "end_time": e, "duration": d}] *)
Definition mk_event (k : string) (s e d : number) : gmap string pyval :=
  <["type" := VStr k]> (<["start_time" := VNum s]>
    (<["end_time" := VNum e]> (<["duration" := VNum d]> ∅))).

(* ================================================================== *)
(** ** The taxonomy tables of [display_detailed_events] *)
(* ================================================================== *)

Definition type_to_number_items : list (string * Z) :=
  [ ("consult_sheets", 2);
    ("turn_sheets", 3);
    ("take_screwdriver", 4);
    ("put_down_screwdriver", 5);
    ("picking_in_front", 6);
    ("picking_left", 7);
    ("take_measuring_rod", 8);
    ("put_down_measuring_rod", 9);
    ("take_subsystem", 10);
    ("put_down_subsystem", 11);
    ("assemble_system", 12);
    ("meta_action", 1) ].

Definition type_to_number : gmap string Z := list_to_map type_to_number_items.

Definition display_names_items : list (string * string) :=
  [ ("consult_sheets", "Consult sheets");
    ("turn_sheets", "Turn sheets");
    ("take_screwdriver", "Take screwdriver");
    ("put_down_screwdriver", "Put down screwdriver");
    ("picking_in_front", "Picking in front");
    ("picking_left", "Picking left");
    ("take_measuring_rod", "Take measuring rod");
    ("put_down_measuring_rod", "Put down measuring rod");
    ("take_subsystem", "Take subsystem");
    ("put_down_subsystem", "Put down subsystem");
    ("assemble_system", "Assemble system");
    ("meta_action", "Meta action") ].

Definition display_names : gmap string string := list_to_map display_names_items.

(** The kinds of the taxonomy: the keys of the tables. *)
Definition known_kinds : list string := type_to_number_items.*1.

(** Lookup of an arbitrary value in a dict whose keys are all strings:
    [None] and a number are hashable and are simply not found. *)
Definition lookup_val {V} (d : gmap string V) (k : pyval) : option V :=
  match k with
  | VStr s => d !! s
  | _ => None
  end.

(** [number = type_to_number.get(event_type, 1)] *)
Definition number_of (event_type : pyval) : Z :=
  default 1 (lookup_val type_to_number event_type).

(** [display_name = display_names.get(event_type, event_type)] *)
Definition display_name_of (event_type : pyval) : pyval :=
  default event_type (VStr <$> lookup_val display_names event_type).

(** [f"[{number}] {display_name}"] for a display name that is a string. *)
Definition label (number : Z) (display_name : string) : string :=
  "[" +:+ pretty number +:+ "] " +:+ display_name.

(* ================================================================== *)
(** ** [display_detailed_events] *)
(* ================================================================== *)

(** One printed line before its layout: the code, the display name and
    the two times.  Whether the values can be printed is part of the
    model ([format_str], [format_f]); the padding and the digits of the
    two-decimal rendering are console layout. *)
Record detail_row : Type := {
  row_number : Z;
  row_display_name : pyval;
  row_start_time : number;
  row_end_time : number
}.

(** Whether a value is written out: a number is when it is written in
    decimal, a string and [None] always are. *)
Definition shows (v : pyval) : bool :=
  match v with
  | VNum n => num_shows n
  | _ => true
  end.

(** [f"[{number}] {display_name}"]: a string and [None] are written as
    they are, a number in decimal, which raises [ValueError] for an [int]
    of too many digits. *)
Definition format_str (v : pyval) : result exn () :=
  match v with
  | VNum n => if num_shows n then Ok () else Raise ValueError
  | _ => Ok ()
  end.

(** The format code ['f'] (of [.1f] and [.2f]): a number is rendered
    unless it is an [int] too large for a [float], a string raises
    [ValueError], and [None] raises [TypeError]. *)
Definition format_f (v : pyval) : result exn number :=
  match v with
  | VNum n => if num_renders n then Ok n else Raise OverflowError
  | VStr _ => Raise ValueError
  | VNone => Raise TypeError
  end.

(** The body of the [for event in events] loop. *)
Definition detail_row_of (ev : gmap string pyval) : result exn detail_row :=
  event_type ← getitem ev "type";
  let number := number_of event_type in
  let display_name := display_name_of event_type in
  _ ← format_str display_name;
  let start_time := get ev "start_time" (VNum int_zero) in
  let end_time := get ev "end_time" (VNum int_zero) in
  s ← format_f start_time;
  e ← format_f end_time;
  mret {| row_number := number; row_display_name := display_name;
          row_start_time := s; row_end_time := e |}.

Definition display_detailed_events (events : list (gmap string pyval))
  : result exn (list detail_row) :=
  mapM detail_row_of events.

(** The label of a row whose display name is a string. *)
Definition row_label (r : detail_row) : option string :=
  match row_display_name r with
  | VStr s => Some (label (row_number r) s)
  | _ => None
  end.

(* ================================================================== *)
(** ** [display_events_summary] *)
(* ================================================================== *)

(** [{'count': c, 'total_duration': t}] *)
Record stats : Type := {
  count : nat;
  total_duration : number
}.

(** [event_counts] is a dict keyed by the events' ['type'] values.  A
    Python dict keeps its keys in insertion order, so it is an association
    list with unique keys: assignment to a present key replaces the value
    in place and keeps the key object, assignment to a new key appends. *)
Fixpoint dict_get {V} (k : pyval) (d : list (pyval * V)) : option V :=
  match d with
  | [] => None
  | (k', v) :: d' =>
      if decide (key_of k' = key_of k) then Some v else dict_get k d'
  end.

Fixpoint dict_set {V} (k : pyval) (v : V) (d : list (pyval * V))
  : list (pyval * V) :=
  match d with
  | [] => [(k, v)]
  | (k', v') :: d' =>
      if decide (key_of k' = key_of k) then (k', v) :: d'
      else (k', v') :: dict_set k v d'
  end.

(** [d[k]] on such a dict. *)
Definition dict_getitem {V} (k : pyval) (d : list (pyval * V)) : result exn V :=
  match dict_get k d with
  | Some v => Ok v
  | None => Raise (KeyError k)
  end.

(** [acc += v] for a numeric accumulator: adding a string or [None] is a
    [TypeError], adding a number is [OverflowError] when an [int] is too
    large for the [float] it is added to. *)
Definition add_num (acc : number) (v : pyval) : result exn number :=
  match v with
  | VNum q =>
      match num_add acc q with
      | Some r => Ok r
      | None => Raise OverflowError
      end
  | _ => Raise TypeError
  end.

(** The local variables [event_counts] and [total_duration]. *)
Record summary_state : Type := {
  event_counts : list (pyval * stats);
  st_total_duration : number
}.

Definition summary_init : summary_state :=
  {| event_counts := []; st_total_duration := int_zero |}.

(** The body of the [for event in events] loop. *)
Definition summary_step (st : summary_state) (ev : event)
  : result exn summary_state :=
  event_type ← getitem ev "type";
  let duration := get ev "duration" (VNum int_zero) in
  let counts :=
    match dict_get event_type (event_counts st) with
    | None =>
        dict_set event_type {| count := 0; total_duration := int_zero |}
          (event_counts st)
    | Some _ => event_counts st
    end in
  s ← dict_getitem event_type counts;
  let counts := dict_set event_type
    {| count := S (count s); total_duration := total_duration s |} counts in
  s ← dict_getitem event_type counts;
  t ← add_num (total_duration s) duration;
  let counts := dict_set event_type
    {| count := count s; total_duration := t |} counts in
  total ← add_num (st_total_duration st) duration;
  mret {| event_counts := counts; st_total_duration := total |}.

Fixpoint foldlM {E A B} (f : A → B → result E A) (a : A) (l : list B)
  : result E A :=
  match l with
  | [] => Ok a
  | x :: l' => a' ← f a x; foldlM f a' l'
  end.

(** [a < b] on values: strings by code point, numbers by value; a string
    against a number, and anything against [None], is a TypeError. *)
Definition py_lt (a b : pyval) : result exn bool :=
  match a, b with
  | VStr s, VStr t => Ok (String.ltb s t)
  | VNum p, VNum q => Ok (num_lt p q)
  | _, _ => Raise TypeError
  end.

(** [sorted(event_counts.items())].  The items are (key, stats) tuples
    with pairwise different keys, so a comparison of two items is decided
    by their keys and never reaches the stats dicts.  Over unique keys in
    a total order (strings, and numbers without NaN) the sorted order is
    unique, so an insertion sort returns what the built-in sort returns;
    a dict with keys of two sorts makes either one compare a key of one
    sort with a key of the other. *)
Fixpoint insert_item {V} (x : pyval * V) (l : list (pyval * V))
  : result exn (list (pyval * V)) :=
  match l with
  | [] => Ok [x]
  | y :: l' =>
      b ← py_lt x.1 y.1;
      if b : bool then Ok (x :: y :: l') else (y ::.) <$> insert_item x l'
  end.

Fixpoint sorted_items {V} (l : list (pyval * V))
  : result exn (list (pyval * V)) :=
  match l with
  | [] => Ok []
  | x :: l' => s ← sorted_items l'; insert_item x s
  end.

(** The format spec [<20] of the kind column: a string is padded, a
    number is written in decimal and padded, [None] raises
    [TypeError]. *)
Definition format_kind (event_type : pyval) : result exn () :=
  match event_type with
  | VNone => Raise TypeError
  | VStr _ => Ok ()
  | VNum n => if num_shows n then Ok () else Raise ValueError
  end.

(** One line of the table: the kind, the count and the total with
    [.1f]. *)
Definition format_row (item : pyval * stats) : result exn () :=
  _ ← format_kind item.1;
  _ ← format_f (VNum (total_duration item.2));
  mret ().

(** What the function prints, before layout: the number of events, the
    total time, and one row per kind in sorted order.  Whether the values
    can be printed is part of the model ([format_kind], [format_f]); the
    padding and the digits of the one-decimal rendering are console
    layout. *)
Record summary_report : Type := {
  report_n_events : nat;
  report_total : number;
  report_rows : list (pyval * stats)
}.

(** The loop, then the total printed with [.1f], then the rows sorted
    and printed one by one. *)
Definition display_events_summary (events : list event)
  : result exn summary_report :=
  st ← foldlM summary_step summary_init events;
  _ ← format_f (VNum (st_total_duration st));
  rows ← sorted_items (event_counts st);
  _ ← mapM format_row rows;
  mret {| report_n_events := length events;
          report_total := st_total_duration st;
          report_rows := rows |}.

(** Item [x] may stand before item [y] in sorted order: [y < x] is
    false. *)
Definition not_after {V} (x y : pyval * V) : Prop := py_lt y.1 x.1 = Ok false.

(** A dict whose keys are all strings. *)
Definition string_keyed {V} (d : list (pyval * V)) : Prop :=
  Forall (λ x, ∃ s, x.1 = VStr s) d.

Definition is_Ok {E A} (r : result E A) : Prop := ∃ a, r = Ok a.

(** The stored duration of an event as the loop reads it. *)
Definition stored_duration (ev : event) : number :=
  match get ev "duration" (VNum int_zero) with
  | VNum q => q
  | _ => int_zero
  end.

(** The events of a sequence whose ['type'] is the dict key [κ], and
    those whose ['type'] is the same key as the value [k]. *)
Definition has_key (κ : pykey) (ev : event) : Prop :=
  key_of <$> ev !! "type" = Some κ.

#[global] Instance has_key_dec κ ev : Decision (has_key κ ev).
Proof. unfold has_key. apply _. Defined.

Definition has_type (k : pyval) (ev : event) : Prop := has_key (key_of k) ev.

Definition events_of_kind (k : pyval) (events : list event) : list event :=
  filter (has_key (key_of k)) events.

(** Left-to-right sum from [acc] with Python's [+], as the accumulators
    are built: [None] when one of the additions raises.  The proofs about
    it use no law of addition, only the order in which the loop adds. *)
Fixpoint sum_from (acc : number) (l : list number) : option number :=
  match l with
  | [] => Some acc
  | q :: l' => acc' ← num_add acc q; sum_from acc' l'
  end.

(** The sum from the literal [0]. *)
Definition sum_from_zero (l : list number) : option number :=
  sum_from int_zero l.

(** What the statistics of kind [k] are expected to be over [events]:
    no entry when no event has the kind, otherwise the number of such
    events and the sum of their stored durations. *)
Definition kind_stats (k : pyval) (events : list event) : option stats :=
  match events_of_kind k events with
  | [] => None
  | evs =>
      t ← sum_from_zero (stored_duration <$> evs);
      Some {| count := length evs; total_duration := t |}
  end.

(** An event that the summary can process: its ['type'] is present and
    its ['duration'], when present, is a number. *)
Definition summable (ev : event) : Prop :=
  is_Some (ev !! "type")
  ∧ get ev "duration" (VNum int_zero) = VNum (stored_duration ev).

(** A sum that is defined and that the format code ['f'] renders. *)
Definition printable_sum (l : list number) : Prop :=
  ∃ t, sum_from_zero l = Some t ∧ num_renders t = true.

(** The total of every kind that occurs is defined and rendered. *)
Definition kinds_printable (events : list event) : Prop :=
  ∀ k ev, ev ∈ events → has_type k ev →
          printable_sum (stored_duration <$> events_of_kind k events).

(** The entry a kind starts from. *)
Definition zero_stats : stats := {| count := 0; total_duration := int_zero |}.

(** The keys of [event_counts] after a run of the loop: the ['type']
    values in the order of their first occurrence; a value that is the
    same key as an earlier one leaves the earlier one in place. *)
Definition keys_step (seen : list pyval) (ev : event) : list pyval :=
  match ev !! "type" with
  | Some k => if decide (key_of k ∈ key_of <$> seen) then seen else seen ++ [k]
  | None => seen
  end.

Definition kind_keys (events : list event) : list pyval :=
  fold_left keys_step events [].

(** The loop invariant: after the events [done_], the accumulators hold
    their statistics. *)
Record summary_inv (done_ : list event) (st : summary_state) : Prop := {
  inv_total :
    sum_from_zero (stored_duration <$> done_) = Some (st_total_duration st);
  inv_counts : ∀ k, dict_get k (event_counts st) = kind_stats k done_;
  inv_sums :
    ∀ k, is_Some (sum_from_zero (stored_duration <$> events_of_kind k done_));
  inv_keys : NoDup (key_of <$> (event_counts st).*1);
  inv_stored : (event_counts st).*1 = kind_keys done_;
  inv_events : Forall summable done_
}.

(** Two events that the summary loop cannot tell apart: the same
    ['type'] lookup and the same duration as read with its default. *)
Definition same_summary_fields (ev ev' : event) : Prop :=
  ev !! "type" = ev' !! "type"
  ∧ get ev "duration" (VNum int_zero) = get ev' "duration" (VNum int_zero).

(** The counts of all rows, added up. *)
Fixpoint total_count (d : list (pyval * stats)) : nat :=
  match d with
  | [] => 0
  | x :: d' => count x.2 + total_count d'
  end.

(** The sort of a value; two values compare with [<] iff they are of the
    same sort and not [None]. *)
Inductive sort : Type :=
  | NoneSort
  | StrSort
  | NumSort.

#[global] Instance sort_eq_decision : EqDecision sort.
Proof. solve_decision. Defined.

Definition sort_of (v : pyval) : sort :=
  match v with
  | VNone => NoneSort
  | VStr _ => StrSort
  | VNum _ => NumSort
  end.

(** A dict whose keys are all of the sort [c]. *)
Definition uniform_keys {V} (c : sort) (d : list (pyval * V)) : Prop :=
  Forall (λ x, sort_of x.1 = c) d.

(** An event whose kind is a number. *)
Definition number_kinded (ev : event) : Prop :=
  ∃ q, ev !! "type" = Some (VNum q).

(** An event that the detailed listing can print: its ['type'] is
    present and is written out, and its ['start_time'] and ['end_time'],
    read with their default, are numbers that the format code ['f']
    renders. *)
Definition printable (ev : event) : Prop :=
  ∃ k a b,
    ev !! "type" = Some k
    ∧ shows k = true
    ∧ get ev "start_time" (VNum int_zero) = VNum a
    ∧ num_renders a = true
    ∧ get ev "end_time" (VNum int_zero) = VNum b
    ∧ num_renders b = true.

(** An event as the classifier interface describes it: the kind is a
    string. *)
Definition string_kinded (ev : event) : Prop :=
  ∃ s, ev !! "type" = Some (VStr s).

(* ================================================================== *)
(** ** Orchestration: [analyze_video], [main], [__main__] *)
(* ================================================================== *)

(** [{'events': ..., 'robot_selected_events': ...}] *)
Record analysis_data : Type := {
  events_of : list event;
  robot_selected_events : list event
}.

(** The methods of [WorkerAnalysisSystem] that the script calls, each
    given by what the call returns or raises.  [analyze_video] may return
    [None]. *)
Record Analyzer : Type := {
  analyzer_analyze_video : result exn (option (list event));
  analyzer_select_robot_actions : list event → result exn (list event);
  analyzer_generate_robot_script : analysis_data → result exn (option string)
}.

(** The surroundings of one run: the file system and the user behind
    [setup_directories], [get_video_input] and [save_analysis_results],
    and the constructor of the analysis engine.  [save_analysis_results]
    catches every exception of its body and returns a path or [None]. *)
Record World : Type := {
  world_setup_directories : result exn ();
  world_get_video_input : result exn (option string);
  world_WorkerAnalysisSystem : string → result exn Analyzer;
  world_save_analysis_results : analysis_data → string → option string
}.

(** The calls into collaborators, in the order they are made. *)
Inductive call : Type :=
  | CallSetupDirectories
  | CallGetVideoInput
  | CallInit (video_path : string)
  | CallAnalyzeVideo
  | CallSelectRobotActions
  | CallGenerateRobotScript
  | CallSaveResults.

#[global] Instance call_eq_decision : EqDecision call.
Proof. solve_decision. Defined.

(** Statements run against a log of the calls made so far; an exception
    keeps the log. *)
Definition IO (A : Type) : Type := list call → result exn A * list call.

#[global] Instance IO_ret : MRet IO := λ A a tr, (Ok a, tr).
#[global] Instance IO_bind : MBind IO := λ A B f m tr,
  match m tr with
  | (Ok a, tr') => f a tr'
  | (Raise e, tr') => (Raise e, tr')
  end.

(** A collaborator call: log it, then return or raise what it does. *)
Definition perform {A} (c : call) (r : result exn A) : IO A :=
  λ tr, (r, tr ++ [c]).

(** A modelled function of this file run inside the script. *)
Definition lift {A} (r : result exn A) : IO A := λ tr, (r, tr).

(** [try: body / except Exception as e: handler] *)
Definition try_except {A} (body : IO A) (handler : exn → IO A) : IO A :=
  λ tr,
    match body tr with
    | (Ok a, tr') => (Ok a, tr')
    | (Raise e, tr') => handler e tr'
    end.

(** Truth value of [video_path]: [None] and the empty string are false. *)
Definition truthy_path (video_path : option string) : bool :=
  match video_path with
  | Some (String _ _) => true
  | _ => false
  end.

Definition analyze_video (analyzer : Analyzer) : IO (option analysis_data) :=
  try_except
    (events ← perform CallAnalyzeVideo (analyzer_analyze_video analyzer);
     match events with
     | Some (ev :: evs) =>
         selected ← perform CallSelectRobotActions
                      (analyzer_select_robot_actions analyzer (ev :: evs));
         mret (Some {| events_of := ev :: evs;
                       robot_selected_events := selected |})
     | _ => mret None
     end)
    (λ _, mret None).

Definition main (w : World) : IO bool :=
  _ ← perform CallSetupDirectories (world_setup_directories w);
  video_path ← perform CallGetVideoInput (world_get_video_input w);
  match video_path with
  | None | Some "" => mret false
  | Some video_path =>
      analyzer ← try_except
        (analyzer ← perform (CallInit video_path)
                       (world_WorkerAnalysisSystem w video_path);
         mret (Some analyzer))
        (λ _, mret None);
      match analyzer with
      | None => mret false
      | Some analyzer =>
          data ← analyze_video analyzer;
          match data with
          | None => mret false
          | Some data =>
              let events := events_of data in
              match events with
              | [] => mret false
              | _ :: _ =>
                  _ ← lift (display_events_summary events);
                  _ ← lift (display_detailed_events events);
                  let robot_events := robot_selected_events data in
                  robot_script_path ←
                    match robot_events with
                    | [] => mret (None : option string)
                    | _ :: _ =>
                        perform CallGenerateRobotScript
                          (analyzer_generate_robot_script analyzer data)
                    end;
                  results_file ← perform CallSaveResults
                    (Ok (world_save_analysis_results w data video_path));
                  mret true
              end
          end
      end
  end.

(** The [__main__] block: [sys.exit(0 if success else 1)]; an exception
    that leaves [main] ends the interpreter with status 1. *)
Definition exit_status (w : World) : Z :=
  match (main w []).1 with
  | Ok true => 0
  | Ok false => 1
  | Raise _ => 1
  end.

(** The calls made by one run. *)
Definition calls_of (w : World) : list call := (main w []).2.

(* ================================================================== *)
(** ** The action-event core behind the analysis engine *)
(* ================================================================== *)

(** Modelled from the spec: the typed failures of section 7; the module
    [gttest_analysis] that would raise them is not among the sources. *)
Inductive core_error : Type :=
  | InvalidTimeRange
  | EmptySelection
  | DuplicateEvent.

(** Modelled from the spec: the Event of section 3, a kind with its time
    bounds; an unknown kind keeps its raw string.  The class that holds
    it lives in the missing [gttest_analysis]. *)
Record Event : Type := {
  kind : string;
  start_time : Qc;
  end_time : Qc
}.

#[global] Instance Event_eq_decision : EqDecision Event.
Proof. solve_decision. Defined.

(** Modelled from the spec: [duration], derived as
    [end_time − start_time] (section 3); defined in the missing
    [gttest_analysis]. *)
Definition duration (e : Event) : Qc := (end_time e - start_time e)%Qc.

(** Modelled from the spec: the Event constructor of section 4.1, from a
    raw (kind-string, start_time, end_time) triple; it is part of the
    missing [gttest_analysis].  Bounds must be non-negative and
    [end_time < start_time] fails with [InvalidTimeRange]; rationals are
    always finite. *)
Definition make_event (raw : string * Qc * Qc) : result core_error Event :=
  let '(k, s, e) := raw in
  if Qclt_le_dec e s then Raise InvalidTimeRange
  else if Qclt_le_dec s 0%Qc then Raise InvalidTimeRange
  else Ok {| kind := k; start_time := s; end_time := e |}.

(** Modelled from the spec: the selection policy of section 4.2, naming
    the robot-actionable kinds; it belongs to the missing
    [gttest_analysis]. *)
Record Policy : Type := {
  actionable_set : gset string
}.

(** Modelled from the spec: the default policy of section 3, the
    manipulation kinds [take_*], [put_down_*], [picking_*] and
    [assemble_system]; the observation kinds are left out.  Its table is
    in the missing [gttest_analysis]. *)
Definition default_policy : Policy :=
  {| actionable_set :=
       list_to_set [ "take_screwdriver"; "put_down_screwdriver";
                     "picking_in_front"; "picking_left";
                     "take_measuring_rod"; "put_down_measuring_rod";
                     "take_subsystem"; "put_down_subsystem";
                     "assemble_system" ] |}.

(** Modelled from the spec: [select] of section 4.2
    ([WorkerAnalysisSystem.select_robot_actions], whose body is in the
    missing [gttest_analysis]): one linear pass that retains an event iff
    its kind is in the policy's actionable set. *)
Definition select (events : list Event) (policy : Policy) : list Event :=
  filter (λ e, kind e ∈ actionable_set policy) events.

(** Modelled from the spec: a robot command of section 4.3, the numeric
    code of the action, the start offset and the duration; the table of
    kind-specific parameters is not given by the spec and is left out.
    The type belongs to the missing [gttest_analysis]. *)
Record Command : Type := {
  cmd_code : Z;
  cmd_offset : Qc;
  cmd_duration : Qc
}.

(** Modelled from the spec: the command emitted for one selected event,
    relative to the first selected event (section 4.3); part of the
    missing [gttest_analysis]. *)
Definition command_of (first e : Event) : Command :=
  {| cmd_code := number_of (VStr (kind e));
     cmd_offset := (start_time e - start_time first)%Qc;
     cmd_duration := duration e |}.

(** Modelled from the spec: [generate] of section 4.3
    ([WorkerAnalysisSystem.generate_robot_script], whose body is in the
    missing [gttest_analysis]): fails with [EmptySelection] on zero
    events, otherwise emits one command per selected event, in order. *)
Definition generate (selection : list Event)
  : result core_error (list Command) :=
  match selection with
  | [] => Raise EmptySelection
  | first :: _ => Ok (command_of first <$> selection)
  end.

(** Modelled from the spec: the ordering invariant of an EventSequence
    (section 3), non-decreasing by [start_time]; the sequence type is in
    the missing [gttest_analysis]. *)
Definition ordered_by_start (events : list Event) : Prop :=
  Sorted Qcle (start_time <$> events).

(** The scenario of section 8. *)
Definition scenario_events : list Event :=
  [ {| kind := "turn_sheets"; start_time := Q2Qc 0; end_time := Q2Qc 2 |};
    {| kind := "take_screwdriver"; start_time := Q2Qc 2;
       end_time := Q2Qc 3.5 |};
    {| kind := "put_down_screwdriver"; start_time := Q2Qc 10;
       end_time := Q2Qc 10.5 |} ].

(* ================================================================== *)
(** ** Outcomes of a run *)
(* ================================================================== *)

(** Every stage of [main] goes through: the directories are set up, a
    video path is obtained, the engine is constructed, the analysis
    returns events, the two tables print, and the script generator, when
    it is called, returns. *)
Definition run_succeeds (w : World) : Prop :=
  ∃ path analyzer ev evs selected,
    world_setup_directories w = Ok ()
    ∧ world_get_video_input w = Ok (Some path)
    ∧ path ≠ ""
    ∧ world_WorkerAnalysisSystem w path = Ok analyzer
    ∧ analyzer_analyze_video analyzer = Ok (Some (ev :: evs))
    ∧ analyzer_select_robot_actions analyzer (ev :: evs) = Ok selected
    ∧ is_Ok (display_events_summary (ev :: evs))
    ∧ is_Ok (display_detailed_events (ev :: evs))
    ∧ (selected ≠ [] →
       is_Ok (analyzer_generate_robot_script analyzer
                {| events_of := ev :: evs;
                   robot_selected_events := selected |})).

(** The failures that the script reports itself, each with a message and
    [return False]. *)
Inductive listed_failure (w : World) : Prop :=
  | no_video_path video_path :
      world_get_video_input w = Ok video_path →
      truthy_path video_path = false →
      listed_failure w
  | initialization_raises path e :
      world_get_video_input w = Ok (Some path) →
      world_WorkerAnalysisSystem w path = Raise e →
      listed_failure w
  | analysis_returns_no_data path analyzer :
      world_get_video_input w = Ok (Some path) →
      world_WorkerAnalysisSystem w path = Ok analyzer →
      (∀ tr, (analyze_video analyzer tr).1 = Ok None) →
      listed_failure w
  | event_list_empty path analyzer :
      world_get_video_input w = Ok (Some path) →
      world_WorkerAnalysisSystem w path = Ok analyzer →
      analyzer_analyze_video analyzer = Ok (Some []) →
      listed_failure w.

(* ================================================================== *)
(** ** [setup_directories] *)
(* ================================================================== *)

(** The working directory: what each name is, when it exists. *)
Inductive node : Type :=
  | File
  | Dir.

#[global] Instance node_eq_decision : EqDecision node.
Proof. solve_decision. Defined.

(** [Path(directory).mkdir(exist_ok=True)] for a name in a working
    directory in which the process may create entries: an existing
    directory is left alone, an existing file raises [FileExistsError], a
    free name becomes a directory.  The file system is returned with the
    result, since an exception does not undo what was created before it.
    A working directory that refuses the creation (no permission, a
    read-only or full file system) is outside this model. *)
Definition mkdir_exist_ok (directory : string) (fs : gmap string node)
  : result exn () * gmap string node :=
  match fs !! directory with
  | None => (Ok (), <[directory := Dir]> fs)
  | Some Dir => (Ok (), fs)
  | Some File => (Raise (OtherError "FileExistsError"), fs)
  end.

Definition directories : list string :=
  ["results"; "logs"; "temp"; "robot_scripts"].

(** [for directory in directories: Path(directory).mkdir(exist_ok=True)] *)
Fixpoint mkdir_each (dirs : list string) (fs : gmap string node)
  : result exn () * gmap string node :=
  match dirs with
  | [] => (Ok (), fs)
  | directory :: dirs' =>
      match mkdir_exist_ok directory fs with
      | (Ok _, fs') => mkdir_each dirs' fs'
      | (Raise e, fs') => (Raise e, fs')
      end
  end.

Definition setup_directories (fs : gmap string node)
  : result exn () * gmap string node :=
  mkdir_each directories fs.

(* ================================================================== *)
(** ** [validate_input_file] and [get_video_input] *)
(* ================================================================== *)

(** The library calls the two functions rest on, given by what they
    return: [os.path.exists], [Path(p).suffix], [str.lower] and
    [str.strip()]. *)
Record Platform : Type := {
  os_path_exists : string → bool;
  path_suffix : string → string;
  str_lower : string → string;
  str_strip : string → string
}.

Definition supported_formats : list string :=
  [".mp4"; ".avi"; ".mov"; ".mkv"; ".wmv"].

Definition validate_input_file (pf : Platform) (video_path : string) : bool :=
  if negb (os_path_exists pf video_path) then false
  else
    let file_ext := str_lower pf (path_suffix pf video_path) in
    if decide (file_ext ∈ supported_formats) then true else false.

(** [s.strip(chars)]: drop the leading and the trailing characters that
    are in [chars]. *)
Fixpoint lstrip_chars (chars : list Ascii.ascii) (s : string) : string :=
  match s with
  | EmptyString => EmptyString
  | String c s' =>
      if decide (c ∈ chars) then lstrip_chars chars s' else String c s'
  end.

Definition strip_chars (chars : list Ascii.ascii) (s : string) : string :=
  String.rev (lstrip_chars chars (String.rev (lstrip_chars chars s))).

(** The two characters of the second [strip]: the double and the single
    quote. *)
Definition quote_chars : list Ascii.ascii :=
  [Ascii.ascii_of_nat 34; Ascii.ascii_of_nat 39].

(** A line read, after [strip()] and the [strip] of the quotes. *)
Definition clean_path (pf : Platform) (line : string) : string :=
  strip_chars quote_chars (str_strip pf line).

Definition default_paths : list string :=
  ["../video/r1test.mp4"; "./video/r1test.mp4"; "r1test.mp4"].

Definition EOFError : exn := OtherError "EOFError".

(** The [while True] loop.  [input()] takes the next line of the
    standard input and raises [EOFError] when there is none; what is left
    of the input is returned with the result. *)
Fixpoint prompt_loop (pf : Platform) (inputs : list string)
  : result exn (option string) * list string :=
  match inputs with
  | [] => (Raise EOFError, [])
  | line :: rest =>
      let video_path := clean_path pf line in
      if validate_input_file pf video_path then (Ok (Some video_path), rest)
      else
        match rest with
        | [] => (Raise EOFError, [])
        | retry :: rest' =>
            if decide (str_lower pf retry ∈ ["y"; "yes"])
            then prompt_loop pf rest'
            else (Ok None, rest')
        end
  end.

(** The [for default_path in default_paths] loop, followed by the
    [while] loop: the first default path that exists is offered, and
    [break] leaves the loop when it is declined. *)
Fixpoint default_loop (pf : Platform) (paths : list string)
    (inputs : list string) : result exn (option string) * list string :=
  match paths with
  | [] => prompt_loop pf inputs
  | default_path :: paths' =>
      if os_path_exists pf default_path then
        match inputs with
        | [] => (Raise EOFError, [])
        | use_default :: rest =>
            if decide (str_lower pf use_default ∈ ["y"; "yes"; ""])
            then (Ok (Some default_path), rest)
            else prompt_loop pf rest
        end
      else default_loop pf paths' inputs
  end.

Definition get_video_input (pf : Platform) (inputs : list string)
  : result exn (option string) * list string :=
  default_loop pf default_paths inputs.

(** What the outcomes of the prompt loop say about the lines read. *)
Definition prompt_outcome (pf : Platform) (inputs : list string)
    (r : result exn (option string)) (rest : list string) : Prop :=
  match r with
  | Ok (Some p) =>
      ∃ pre line,
        inputs = pre ++ line :: rest
        ∧ p = clean_path pf line
        ∧ validate_input_file pf p = true
  | Ok None =>
      ∃ pre line retry,
        inputs = pre ++ line :: retry :: rest
        ∧ validate_input_file pf (clean_path pf line) = false
        ∧ str_lower pf retry ∉ ["y"; "yes"]
  | Raise e => e = EOFError ∧ rest = []
  end.

(** One interactive run: the directories are set up in [fs], the video
    path is asked on [inputs], the engine and the saving are as in [w]. *)
Definition interactive_world (pf : Platform) (fs : gmap string node)
    (inputs : list string) (w : World) : World :=
  {| world_setup_directories := (setup_directories fs).1;
     world_get_video_input := (get_video_input pf inputs).1;
     world_WorkerAnalysisSystem := world_WorkerAnalysisSystem w;
     world_save_analysis_results := world_save_analysis_results w |}.

(** An engine whose script generator fails. *)
Definition sample_analyzer_no_script (events : option (list event))
    (selected : list event) : Analyzer :=
  {| analyzer_analyze_video := Ok events;
     analyzer_select_robot_actions := λ _, Ok selected;
     analyzer_generate_robot_script :=
       λ _, Raise (OtherError "cannot write the script") |}.

(** The world [w] with another outcome of saving the results. *)
Definition with_save (save : analysis_data → string → option string)
    (w : World) : World :=
  {| world_setup_directories := world_setup_directories w;
     world_get_video_input := world_get_video_input w;
     world_WorkerAnalysisSystem := world_WorkerAnalysisSystem w;
     world_save_analysis_results := save |}.


(** The run reaches the two tables: every stage before them goes
    through, with [ev :: evs] as events and [selected] as selection. *)
Definition reaches_tables (w : World) (path : string) (analyzer : Analyzer)
    (ev : event) (evs selected : list event) : Prop :=
  world_setup_directories w = Ok ()
  ∧ world_get_video_input w = Ok (Some path)
  ∧ path ≠ ""
  ∧ world_WorkerAnalysisSystem w path = Ok analyzer
  ∧ analyzer_analyze_video analyzer = Ok (Some (ev :: evs))
  ∧ analyzer_select_robot_actions analyzer (ev :: evs) = Ok selected.

(* ================================================================== *)
(** ** [display_welcome] *)
(* ================================================================== *)

(** The four lines of the banner that list the recognised actions. *)
Definition welcome_entries : list string :=
  [ "  [2] Consult sheets | [3] Turn sheets | [4] Take screwdriver";
    "  [5] Put down screwdriver | [6] Picking in front | [7] Picking left";
    "  [8] Take measuring rod | [9] Put down measuring rod";
    "  [10] Take subsystem | [11] Put down subsystem | [12] Assemble system" ].

(** The label that the detailed listing prints for the kind string [k]. *)
Definition listing_label (k : string) : string :=
  label (number_of (VStr k))
    (match display_name_of (VStr k) with
     | VStr name => name
     | _ => ""
     end).

(** [sep.join(l)] *)
Fixpoint join_with (sep : string) (l : list string) : string :=
  match l with
  | [] => ""
  | [x] => x
  | x :: l' => x +:+ sep +:+ join_with sep l'
  end.

(** A banner line for a group of kinds. *)
Definition welcome_line (kinds : list string) : string :=
  "  " +:+ join_with " | " (listing_label <$> kinds).

(** The kinds of the banner, line by line. *)
Definition welcome_kinds : list (list string) :=
  [ ["consult_sheets"; "turn_sheets"; "take_screwdriver"];
    ["put_down_screwdriver"; "picking_in_front"; "picking_left"];
    ["take_measuring_rod"; "put_down_measuring_rod"];
    ["take_subsystem"; "put_down_subsystem"; "assemble_system"] ].

(* ================================================================== *)
(** ** Sample engines and worlds *)
(* ================================================================== *)

(** An engine that reports [events], selects [selected] and writes its
    script to a fixed path. *)
Definition sample_analyzer (events : option (list event))
    (selected : list event) : Analyzer :=
  {| analyzer_analyze_video := Ok events;
     analyzer_select_robot_actions := λ _, Ok selected;
     analyzer_generate_robot_script :=
       λ _, Ok (Some "robot_scripts/robot_control.py") |}.

(** A run on the default video with a given engine constructor. *)
Definition sample_world (video_path : option string)
    (init : result exn Analyzer) : World :=
  {| world_setup_directories := Ok ();
     world_get_video_input := Ok video_path;
     world_WorkerAnalysisSystem := λ _, init;
     world_save_analysis_results := λ _ _, Some "results/r1test.json" |}.

End model.

(** An event is a dict with string keys. *)
Abbreviation event := (gmap string pyval).

(* ================================================================== *)
(** ** Sample runs *)
(* ================================================================== *)

(** Two observation events, as the engine would report them, with
    [float] times. *)
Definition observation_events : list (gmap string (@pyval float_numbers)) :=
  [ @mk_event float_numbers "consult_sheets" 0%float 2%float 2%float;
    @mk_event float_numbers "turn_sheets" 2%float 3.5%float 1.5%float ].

(** A platform for sample runs on ASCII text: the listed paths exist;
    [lower] maps the letters A to Z; [strip] drops blanks at both ends;
    the suffix is the one of the last component of the path, from its
    last dot on, when that dot is neither its first nor its last
    character. *)
Definition ascii_lower (c : Ascii.ascii) : Ascii.ascii :=
  let n := Ascii.nat_of_ascii c in
  if decide (65 ≤ n ≤ 90)%nat then Ascii.ascii_of_nat (n + 32) else c.

Fixpoint lower_ascii (s : string) : string :=
  match s with
  | EmptyString => EmptyString
  | String c s' => String (ascii_lower c) (lower_ascii s')
  end.

Definition blank_chars : list Ascii.ascii :=
  Ascii.ascii_of_nat <$> [9; 10; 11; 12; 13; 28; 29; 30; 31; 32]%nat.

(** The components of a path between slashes, the current one being
    collected in [cur]. *)
Fixpoint path_parts (s : string) (cur : string) : list string :=
  match s with
  | EmptyString => [cur]
  | String c s' =>
      if decide (c = Ascii.ascii_of_nat 47)
      then cur :: path_parts s' EmptyString
      else path_parts s' (cur +:+ String c EmptyString)
  end.

(** The last component that is neither empty nor a single dot. *)
Definition path_name (p : string) : string :=
  default EmptyString
    (last (filter (λ part, part ≠ EmptyString ∧ part ≠ ".")
             (path_parts p EmptyString))).

(** The text from the last dot of [name] on, with the number of
    characters before it; [None] without a dot. *)
Fixpoint last_dot (name : string) (before : nat) : option (nat * string) :=
  match name with
  | EmptyString => None
  | String c name' =>
      match last_dot name' (S before) with
      | Some found => Some found
      | None =>
          if decide (c = Ascii.ascii_of_nat 46)
          then Some (before, String c name')
          else None
      end
  end.

Definition suffix_of (p : string) : string :=
  match last_dot (path_name p) 0 with
  | Some (S _, String dot (String c rest)) => String dot (String c rest)
  | _ => EmptyString
  end.

Definition sample_platform (existing : list string) : Platform :=
  {| os_path_exists := λ p, bool_decide (p ∈ existing);
     path_suffix := suffix_of;
     str_lower := lower_ascii;
     str_strip := strip_chars blank_chars |}.

(* ================================================================== *)
(** * Properties *)
(* ================================================================== *)

Section properties.
Context `{N : Numbers}.

(** ** Literal tables *)

(** In a literal table without repeated values, a value determines its
    key. *)
Lemma table_values_inj {V} (l : list (string * V)) (k1 k2 : string) (v : V) :
  NoDup l.*2 →
  (list_to_map l : gmap string V) !! k1 = Some v →
  (list_to_map l : gmap string V) !! k2 = Some v →
  k1 = k2.
Proof.
  intros Hnd H1%elem_of_list_to_map_2 H2%elem_of_list_to_map_2.
  induction l as [|[k w] l IH]; [by apply elem_of_nil in H1|].
  simpl in Hnd. apply NoDup_cons in Hnd as [Hw Hnd].
  apply elem_of_cons in H1 as [H1|H1];
    apply elem_of_cons in H2 as [H2|H2]; simplify_eq; try done.
  - exfalso. apply Hw. apply list_elem_of_fmap. by exists (k2, w).
  - exfalso. apply Hw. apply list_elem_of_fmap. by exists (k1, w).
  - by apply IH.
Qed.

Lemma known_kinds_display_names : display_names_items.*1 = known_kinds.
Proof. reflexivity. Qed.

Lemma unknown_kind_lookups (s : string) :
  s ∉ known_kinds →
  type_to_number !! s = None ∧ display_names !! s = None.
Proof.
  intros Hs. split.
  - by apply not_elem_of_list_to_map_1.
  - apply not_elem_of_list_to_map_1. by rewrite known_kinds_display_names.
Qed.

(** ** The taxonomy *)

(** C1: the two lookup tables give each of the 12 named kinds the numeric
    code of the taxonomy (meta_action 1, consult_sheets 2, ...,
    assemble_system 12); there are exactly 12 kinds, both tables have
    these keys, and neither the code table nor the display-name table
    sends two kinds to the same value. *)
Theorem taxonomy_codes_and_labels :
  (type_to_number !! "meta_action" = Some 1
   ∧ type_to_number !! "consult_sheets" = Some 2
   ∧ type_to_number !! "turn_sheets" = Some 3
   ∧ type_to_number !! "take_screwdriver" = Some 4
   ∧ type_to_number !! "put_down_screwdriver" = Some 5
   ∧ type_to_number !! "picking_in_front" = Some 6
   ∧ type_to_number !! "picking_left" = Some 7
   ∧ type_to_number !! "take_measuring_rod" = Some 8
   ∧ type_to_number !! "put_down_measuring_rod" = Some 9
   ∧ type_to_number !! "take_subsystem" = Some 10
   ∧ type_to_number !! "put_down_subsystem" = Some 11
   ∧ type_to_number !! "assemble_system" = Some 12)
  ∧ (length known_kinds = 12%nat ∧ NoDup known_kinds
     ∧ dom type_to_number = list_to_set known_kinds
     ∧ dom display_names = list_to_set known_kinds)
  ∧ (∀ k1 k2 n,
       type_to_number !! k1 = Some n → type_to_number !! k2 = Some n →
       k1 = k2)
  ∧ (∀ k1 k2 name,
       display_names !! k1 = Some name → display_names !! k2 = Some name →
       k1 = k2).
Proof.
  split; [|split; [|split]].
  - repeat split; by vm_compute.
  - split; [reflexivity|]. split; [|split].
    + apply (bool_decide_unpack _). by vm_compute.
    + unfold type_to_number. by rewrite dom_list_to_map_L.
    + unfold display_names.
      by rewrite dom_list_to_map_L, known_kinds_display_names.
  - intros k1 k2 n. apply table_values_inj.
    apply (bool_decide_unpack _). by vm_compute.
  - intros k1 k2 name. apply table_values_inj.
    apply (bool_decide_unpack _). by vm_compute.
Qed.

(** ** The rows of the detailed listing *)

Lemma format_str_display_name (k : pyval) :
  format_str (display_name_of k)
  = if shows k then Ok () else Raise ValueError.
Proof.
  destruct k as [|s|n]; [done| |done].
  unfold display_name_of. simpl. by destruct (display_names !! s).
Qed.

(** The row of an event, or the exception that it raises. *)
Lemma detail_row_of_cases (ev : event) :
  detail_row_of ev
  = match ev !! "type" with
    | None => Raise (KeyError (VStr "type"))
    | Some k =>
        if shows k then
          match get ev "start_time" (VNum int_zero) with
          | VNone => Raise TypeError
          | VStr _ => Raise ValueError
          | VNum a =>
              if num_renders a then
                match get ev "end_time" (VNum int_zero) with
                | VNone => Raise TypeError
                | VStr _ => Raise ValueError
                | VNum b =>
                    if num_renders b then
                      Ok {| row_number := number_of k;
                            row_display_name := display_name_of k;
                            row_start_time := a; row_end_time := b |}
                    else Raise OverflowError
                end
              else Raise OverflowError
          end
        else Raise ValueError
    end.
Proof.
  unfold detail_row_of, getitem.
  destruct (ev !! "type") as [k|]; cbn [mbind result_bind]; [|done].
  rewrite format_str_display_name.
  destruct (shows k); cbn [mbind result_bind]; [|done].
  destruct (get ev "start_time" (VNum int_zero)) as [|s|a];
    cbn [format_f mbind result_bind]; [done|done|].
  destruct (num_renders a); cbn [mbind result_bind]; [|done].
  destruct (get ev "end_time" (VNum int_zero)) as [|s|b];
    cbn [format_f mbind result_bind]; [done|done|].
  by destruct (num_renders b).
Qed.

Lemma detail_row_of_eq (ev : event) k a b :
  ev !! "type" = Some k →
  shows k = true →
  get ev "start_time" (VNum int_zero) = VNum a →
  num_renders a = true →
  get ev "end_time" (VNum int_zero) = VNum b →
  num_renders b = true →
  detail_row_of ev
  = Ok {| row_number := number_of k; row_display_name := display_name_of k;
          row_start_time := a; row_end_time := b |}.
Proof.
  intros Hk Hshow Ha Hra Hb Hrb. rewrite detail_row_of_cases.
  by rewrite Hk, Hshow, Ha, Hra, Hb, Hrb.
Qed.

(** C2: an event whose kind string is none of the 12 known kinds gets
    the code 1 and its raw kind string as display name; the row of the
    detailed listing is produced (no exception) whenever the two times
    are numbers that the format code ['f'] renders, and its label is
    ["[1] "] followed by the raw string. *)
Theorem unknown_kind_fallback (s : string) :
  s ∉ known_kinds →
  number_of (VStr s) = 1
  ∧ display_name_of (VStr s) = VStr s
  ∧ ∀ (ev : event) (a b : number),
      ev !! "type" = Some (VStr s) →
      get ev "start_time" (VNum int_zero) = VNum a →
      get ev "end_time" (VNum int_zero) = VNum b →
      num_renders a = true →
      num_renders b = true →
      ∃ row,
        detail_row_of ev = Ok row
        ∧ row = {| row_number := 1; row_display_name := VStr s;
                   row_start_time := a; row_end_time := b |}
        ∧ row_label row = Some ("[1] " +:+ s).
Proof.
  intros Hs. destruct (unknown_kind_lookups s Hs) as [Hn Hd].
  assert (Hnum : number_of (VStr s) = 1)
    by (unfold number_of, lookup_val; by rewrite Hn).
  assert (Hname : display_name_of (VStr s) = VStr s)
    by (unfold display_name_of, lookup_val; by rewrite Hd).
  split; [done|]. split; [done|].
  intros ev a b Hty Ha Hb Hra Hrb. eexists. split; [|split; [reflexivity|]].
  - rewrite (detail_row_of_eq ev (VStr s) a b) by done.
    by rewrite Hnum, Hname.
  - reflexivity.
Qed.

(** ** The selector *)

(** C3: for an event of the sequence, membership in the selection is
    equivalent to its kind being in the policy's actionable set, and the
    selection holds nothing but events of the sequence. *)
Theorem select_filtering (events : list Event) (policy : Policy) (e : Event) :
  (e ∈ events →
   (e ∈ select events policy ↔ kind e ∈ actionable_set policy))
  ∧ (e ∈ select events policy → e ∈ events).
Proof.
  unfold select. rewrite list_elem_of_filter. split.
  - intros He. split; [by intros [? _]|by intros ?].
  - by intros [_ ?].
Qed.

(** C4: the selection is a subsequence of the input: the retained events
    stand in the relative order they have in the input, whatever their
    start times are; selecting from a concatenation is the concatenation
    of the selections, so no event moves across another one. *)
Theorem select_preserves_order (events : list Event) (policy : Policy) :
  select events policy `sublist_of` events
  ∧ ∀ events1 events2,
      events = events1 ++ events2 →
      select events policy
      = select events1 policy ++ select events2 policy.
Proof.
  split.
  - apply sublist_filter.
  - intros events1 events2 ->. apply filter_app.
Qed.

(** ** The event constructor *)

(** C7: constructing an event with [end_time < start_time] fails with
    [InvalidTimeRange], and every event that is constructed has a
    duration [end_time − start_time] that is at least 0. *)
Theorem event_duration_nonneg (k : string) (s e : Qc) :
  ((e < s)%Qc → make_event (k, s, e) = Raise InvalidTimeRange)
  ∧ (∀ ev, make_event (k, s, e) = Ok ev → (0 ≤ duration ev)%Qc).
Proof.
  unfold make_event. split.
  - intros Hlt. destruct (Qclt_le_dec e s) as [_|Hle]; [done|].
    by apply Qcle_not_lt in Hle.
  - intros ev. destruct (Qclt_le_dec e s) as [|Hle]; [done|].
    destruct (Qclt_le_dec s 0%Qc); [done|]. intros [= <-].
    unfold duration. simpl. by apply Qcle_minus_iff in Hle.
Qed.

(** ** The script generator *)

#[global] Instance Qcle_transitive : Transitive Qcle.
Proof. intros x y z. apply Qcle_trans. Qed.

(** A subsequence of a sorted sequence is sorted. *)
Lemma StronglySorted_sublist_of {A} (R : A → A → Prop) (l1 l2 : list A) :
  l1 `sublist_of` l2 → StronglySorted R l2 → StronglySorted R l1.
Proof.
  induction 1 as [|x l1 l2 Hsub IH|x l1 l2 Hsub IH]; intros Hs.
  - constructor.
  - apply StronglySorted_inv in Hs as [Hs Hall]. constructor; [by apply IH|].
    apply Forall_forall. intros y Hy. rewrite Forall_forall in Hall.
    apply Hall. by eapply elem_of_sublist.
  - apply StronglySorted_inv in Hs as [Hs _]. by apply IH.
Qed.

Lemma select_ordered (events : list Event) (policy : Policy) :
  ordered_by_start events →
  StronglySorted Qcle (start_time <$> select events policy).
Proof.
  intros Hs. apply Sorted_StronglySorted in Hs; [|apply _].
  eapply StronglySorted_sublist_of; [|done].
  apply fmap_sublist, sublist_filter.
Qed.

Lemma generate_offsets (first : Event) (rest : list Event) :
  cmd_offset <$> (command_of first <$> first :: rest)
  = (λ t, t - start_time first)%Qc <$> (start_time <$> first :: rest).
Proof. rewrite <- !list_fmap_compose. reflexivity. Qed.

(** C6: on the selection drawn from an event sequence ordered by start
    time, when it is not empty, [generate] returns a script whose offsets
    are the start times minus the first selected start time, are
    non-decreasing in emission order and begin with exactly 0; on the
    selection of the scenario the offsets are 0 and 8. *)
Theorem script_monotonicity :
  (∀ (events : list Event) (policy : Policy),
     ordered_by_start events →
     select events policy ≠ [] →
     ∃ (first : Event) (script : list Command),
       head (select events policy) = Some first
       ∧ generate (select events policy) = Ok script
       ∧ cmd_offset <$> script
         = (λ e, start_time e - start_time first)%Qc
             <$> select events policy
       ∧ Sorted Qcle (cmd_offset <$> script)
       ∧ head (cmd_offset <$> script) = Some 0%Qc)
  ∧ (∃ script : list Command,
       generate (select scenario_events default_policy) = Ok script
       ∧ cmd_offset <$> script = [Q2Qc 0; Q2Qc 8]).
Proof.
  split.
  - intros events policy Hord Hne.
    pose proof (select_ordered events policy Hord) as Hsel.
    destruct (select events policy) as [|first rest]; [done|].
    exists first, (command_of first <$> first :: rest).
    split; [done|]. split; [done|]. split; [|split].
    + rewrite <- list_fmap_compose. reflexivity.
    + rewrite generate_offsets. apply StronglySorted_Sorted.
      eapply StronglySorted_fmap; [|exact Hsel].
      intros x y Hxy. by apply Qcplus_le_mono_r.
    + simpl. f_equal. ring.
  - eexists. split; [reflexivity|].
    simpl. repeat f_equal; by apply Qc_is_canon.
Qed.

(** ** Orchestration *)

#[local] Arguments display_events_summary : simpl never.
#[local] Arguments display_detailed_events : simpl never.

Ltac unfold_run :=
  unfold exit_status, calls_of, main, analyze_video, try_except, perform,
    lift, mbind, mret, IO_bind, IO_ret in *.

Ltac step_run :=
  repeat match goal with
         | H : ?x = _ |- context [?x] => rewrite H; simpl
         end.

(** A run that passes every stage: its result and its calls. *)
Lemma main_run_succeeds (w : World) path analyzer ev evs selected :
  world_setup_directories w = Ok () →
  world_get_video_input w = Ok (Some path) →
  path ≠ "" →
  world_WorkerAnalysisSystem w path = Ok analyzer →
  analyzer_analyze_video analyzer = Ok (Some (ev :: evs)) →
  analyzer_select_robot_actions analyzer (ev :: evs) = Ok selected →
  is_Ok (display_events_summary (ev :: evs)) →
  is_Ok (display_detailed_events (ev :: evs)) →
  (selected ≠ [] →
   is_Ok (analyzer_generate_robot_script analyzer
            {| events_of := ev :: evs; robot_selected_events := selected |})) →
  main w []
  = (Ok true,
     [CallSetupDirectories; CallGetVideoInput; CallInit path;
      CallAnalyzeVideo; CallSelectRobotActions]
     ++ (if selected is [] then [] else [CallGenerateRobotScript])
     ++ [CallSaveResults]).
Proof.
  intros Hsetup Hin Hpath Hinit Han Hsel [r1 Hsum] [r2 Hdet] Hgen.
  unfold_run. step_run.
  destruct path as [|c path]; [done|]. simpl. step_run.
  destruct selected as [|s sel]; simpl; [done|].
  destruct Hgen as [p Hp]; [done|]. by rewrite Hp.
Qed.

(** C5: [generate] on the empty selection fails with [EmptySelection]
    and yields no script; in [main], when the analysis went through and
    the list of robot-selected events is empty, the generator is not
    called at all, the results are still saved, [main] returns [True] and
    the process exits with status 0. *)
Theorem empty_selection_is_not_a_failure :
  generate [] = Raise EmptySelection
  ∧ ∀ (w : World) path analyzer ev evs,
      world_setup_directories w = Ok () →
      world_get_video_input w = Ok (Some path) →
      path ≠ "" →
      world_WorkerAnalysisSystem w path = Ok analyzer →
      analyzer_analyze_video analyzer = Ok (Some (ev :: evs)) →
      analyzer_select_robot_actions analyzer (ev :: evs) = Ok [] →
      is_Ok (display_events_summary (ev :: evs)) →
      is_Ok (display_detailed_events (ev :: evs)) →
      (main w []).1 = Ok true
      ∧ (CallGenerateRobotScript ∉ calls_of w)
      ∧ (CallSaveResults ∈ calls_of w)
      ∧ exit_status w = 0.
Proof.
  split; [reflexivity|].
  intros w path analyzer ev evs Hsetup Hin Hpath Hinit Han Hsel Hsum Hdet.
  pose proof (main_run_succeeds w path analyzer ev evs [] Hsetup Hin Hpath
                Hinit Han Hsel Hsum Hdet) as Hmain.
  unfold exit_status, calls_of. rewrite Hmain by done. simpl.
  split; [done|]. split; [|split; [|done]].
  - apply (bool_decide_unpack _). by vm_compute.
  - apply (bool_decide_unpack _). by vm_compute.
Qed.

Ltac unfold_main :=
  unfold exit_status, calls_of, main, try_except, perform, lift, mbind,
    mret, IO_bind, IO_ret.

Lemma exit_status_listed_failure (w : World) :
  listed_failure w → exit_status w = 1.
Proof.
  intros Hfail. unfold_main.
  destruct (world_setup_directories w) as [[]|e0]; simpl; [|done].
  destruct Hfail as [vp Hin Hvp|path e Hin Hinit|path analyzer Hin Hinit Han
                    |path analyzer Hin Hinit Han]; rewrite Hin; simpl.
  - by destruct vp as [[|c p]|].
  - destruct path as [|c p]; [done|]. by rewrite Hinit.
  - destruct path as [|c p]; [done|]. rewrite Hinit. simpl.
    specialize (Han [CallSetupDirectories; CallGetVideoInput;
                     CallInit (String c p)]).
    destruct (analyze_video analyzer _) as [r tr]. simpl in Han.
    by rewrite Han.
  - destruct path as [|c p]; [done|]. rewrite Hinit. simpl.
    unfold analyze_video, try_except, perform, mbind, mret, IO_bind, IO_ret.
    by rewrite Han.
Qed.

Lemma exit_status_zero_inv (w : World) :
  exit_status w = 0 → run_succeeds w.
Proof.
  unfold run_succeeds, is_Ok. unfold_main.
  unfold analyze_video, try_except, perform, mbind, mret, IO_bind, IO_ret.
  destruct (world_setup_directories w) as [[]|e0] eqn:Hsetup; simpl; [|done].
  destruct (world_get_video_input w) as [[[|c p]|]|e1] eqn:Hin; simpl;
    try done.
  destruct (world_WorkerAnalysisSystem w (String c p)) as [analyzer|e2]
    eqn:Hinit; simpl; [|done].
  destruct (analyzer_analyze_video analyzer) as [[[|ev evs]|]|e3] eqn:Han;
    simpl; try done.
  destruct (analyzer_select_robot_actions analyzer (ev :: evs))
    as [selected|e4] eqn:Hsel; simpl; [|done].
  destruct (display_events_summary (ev :: evs)) as [r1|e5] eqn:Hsum;
    simpl; [|done].
  destruct (display_detailed_events (ev :: evs)) as [r2|e6] eqn:Hdet;
    simpl; [|done].
  intros Hexit.
  exists (String c p), analyzer, ev, evs, selected.
  repeat (split; [by eauto|]).
  intros Hne. destruct selected as [|s sel]; [done|]. simpl in Hexit.
  destruct (analyzer_generate_robot_script analyzer _) as [script|e7];
    [by eauto|done].
Qed.

(** C9: the process exits with status 0 exactly when [main] returns
    [True], which is exactly when every stage of the run goes through;
    it exits with status 1 when no video path is obtained, when the
    construction of the analysis engine raises, when the analysis returns
    no data and when the analysed event list is empty; no other status
    occurs. *)
Theorem exit_status_of_run (w : World) :
  (exit_status w = 0 ↔ (main w []).1 = Ok true)
  ∧ (exit_status w = 0 ↔ run_succeeds w)
  ∧ (listed_failure w → exit_status w = 1)
  ∧ (exit_status w = 0 ∨ exit_status w = 1).
Proof.
  split; [|split; [|split]].
  - unfold exit_status. destruct (main w []).1 as [[]|]; split; done.
  - split; [apply exit_status_zero_inv|].
    intros (path & analyzer & ev & evs & selected & Hsetup & Hin & Hpath
            & Hinit & Han & Hsel & Hsum & Hdet & Hgen).
    unfold exit_status.
    by rewrite (main_run_succeeds w path analyzer ev evs selected).
  - apply exit_status_listed_failure.
  - unfold exit_status. destruct (main w []).1 as [[]|]; auto.
Qed.

(** ** The insertion-ordered dict *)

Section dict.
Context {V : Type}.
Implicit Types (k : pyval) (v : V) (d : list (pyval * V)).

Lemma dict_get_key k k' d : key_of k = key_of k' → dict_get k d = dict_get k' d.
Proof.
  intros Hk. induction d as [|[k0 v0] d IH]; simpl; [done|].
  by rewrite Hk, IH.
Qed.

Lemma dict_get_set_eq k v d : dict_get k (dict_set k v d) = Some v.
Proof.
  induction d as [|[k' v'] d IH]; simpl.
  - by rewrite decide_True.
  - destruct (decide (key_of k' = key_of k)) as [Heq|Hne]; simpl.
    + by rewrite decide_True.
    + by rewrite decide_False.
Qed.

Lemma dict_get_set_ne k k' v d :
  key_of k ≠ key_of k' → dict_get k' (dict_set k v d) = dict_get k' d.
Proof.
  intros Hne. induction d as [|[k0 v0] d IH]; simpl.
  - by rewrite decide_False.
  - destruct (decide (key_of k0 = key_of k)) as [Heq|Hne0]; simpl.
    + rewrite !decide_False; [done|congruence|congruence].
    + by rewrite IH.
Qed.

Lemma dict_set_set k v1 v2 d :
  dict_set k v2 (dict_set k v1 d) = dict_set k v2 d.
Proof.
  induction d as [|[k0 v0] d IH]; simpl.
  - by rewrite decide_True.
  - destruct (decide (key_of k0 = key_of k)) as [Heq|Hne0]; simpl.
    + by rewrite decide_True.
    + by rewrite decide_False, IH.
Qed.

Lemma dict_get_None k d :
  dict_get k d = None ↔ key_of k ∉ key_of <$> d.*1.
Proof.
  induction d as [|[k0 v0] d IH]; simpl.
  - split; [intros _; apply not_elem_of_nil|done].
  - rewrite not_elem_of_cons.
    destruct (decide (key_of k0 = key_of k)) as [Heq|Hne0].
    + split; [done|]. by intros [? _].
    + rewrite IH. split; [by intros ?|by intros [_ ?]].
Qed.

Lemma dict_set_keys k v d :
  (dict_set k v d).*1
  = if decide (key_of k ∈ key_of <$> d.*1) then d.*1 else d.*1 ++ [k].
Proof.
  induction d as [|[k0 v0] d IH]; cbn [dict_set fmap list_fmap fst].
  - rewrite decide_False; [done|]. apply not_elem_of_nil.
  - destruct (decide (key_of k0 = key_of k)) as [Heq|Hne0];
      cbn [fmap list_fmap fst].
    + rewrite decide_True; [done|]. rewrite Heq. apply list_elem_of_here.
    + rewrite IH. destruct (decide (key_of k ∈ key_of <$> d.*1)) as [Hin|Hnin].
      * rewrite decide_True; [done|]. by apply list_elem_of_further.
      * rewrite decide_False; [done|].
        rewrite not_elem_of_cons. by split.
Qed.

Lemma dict_set_NoDup k v d :
  NoDup (key_of <$> d.*1) → NoDup (key_of <$> (dict_set k v d).*1).
Proof.
  intros Hnd. rewrite dict_set_keys. case_decide; [done|].
  rewrite fmap_app. apply NoDup_app. split; [done|]. split.
  - intros x Hx ->%list_elem_of_singleton. done.
  - apply NoDup_singleton.
Qed.

Lemma dict_get_elem_of k v d :
  NoDup (key_of <$> d.*1) → (k, v) ∈ d → dict_get k d = Some v.
Proof.
  induction d as [|[k0 v0] d IH]; simpl; intros Hnd.
  - by intros ?%elem_of_nil.
  - apply NoDup_cons in Hnd as [Hk0 Hnd]. rewrite elem_of_cons.
    destruct (decide (key_of k0 = key_of k)) as [Heq|Hne0].
    + intros [[= -> ->]|Hin]; [done|]. exfalso. apply Hk0. rewrite Heq.
      apply list_elem_of_fmap. exists k. split; [done|].
      apply list_elem_of_fmap. by exists (k, v).
    + intros [[= ? ?]|?]; [by subst|by apply IH].
Qed.

Lemma dict_get_Some k v d :
  dict_get k d = Some v → ∃ k0, key_of k0 = key_of k ∧ (k0, v) ∈ d.
Proof.
  induction d as [|[k0 v0] d IH]; simpl; [done|].
  destruct (decide (key_of k0 = key_of k)) as [Heq|Hne0].
  - intros [= ->]. exists k0. split; [done|]. apply list_elem_of_here.
  - intros (k1 & Hk1 & Hin)%IH. exists k1. split; [done|].
    by apply list_elem_of_further.
Qed.

Lemma dict_get_Permutation k d d' :
  NoDup (key_of <$> d.*1) → d ≡ₚ d' → dict_get k d = dict_get k d'.
Proof.
  intros Hnd Hp.
  assert (Hnd' : NoDup (key_of <$> d'.*1)) by by rewrite <- Hp.
  destruct (dict_get k d) as [v|] eqn:Hd.
  - apply dict_get_Some in Hd as (k0 & Hk0 & Hin). symmetry.
    rewrite <- (dict_get_key k0 k) by done.
    apply dict_get_elem_of; [done|]. by rewrite <- Hp.
  - symmetry. apply dict_get_None. rewrite <- Hp. by apply dict_get_None.
Qed.

(** Sorting the items permutes them. *)
Lemma insert_item_Permutation (x : pyval * V) d d' :
  insert_item x d = Ok d' → d' ≡ₚ x :: d.
Proof.
  revert d'. induction d as [|y d IH]; simpl; intros d'.
  - by intros [= <-].
  - destruct (py_lt x.1 y.1) as [[]|]; simpl; [by intros [= <-]| |done].
    destruct (insert_item x d) as [d0|] eqn:Hins; simpl; [|done].
    intros [= <-]. rewrite (IH d0 eq_refl). apply Permutation_swap.
Qed.

Lemma sorted_items_Permutation d d' : sorted_items d = Ok d' → d' ≡ₚ d.
Proof.
  revert d'. induction d as [|x d IH]; simpl; intros d'.
  - by intros [= <-].
  - destruct (sorted_items d) as [d0|]; simpl; [|done].
    intros Hins%insert_item_Permutation. by rewrite Hins, (IH d0).
Qed.

(** Sorted items with string keys are in order: no item is followed by
    a smaller one. *)
Lemma py_lt_asym (s t : string) :
  py_lt (VStr s) (VStr t) = Ok true → py_lt (VStr t) (VStr s) = Ok false.
Proof.
  simpl. unfold String.ltb. rewrite (String.compare_antisym t s).
  by destruct (String.compare s t).
Qed.

Lemma insert_item_Sorted (x : pyval * V) d d' :
  (∃ s, x.1 = VStr s) → string_keyed d →
  Sorted not_after d → insert_item x d = Ok d' →
  string_keyed d'
  ∧ Sorted not_after d'
  ∧ ∀ z, HdRel not_after z d → not_after z x → HdRel not_after z d'.
Proof.
  intros [s Hs] Hstr Hsort. revert d' Hstr.
  induction Hsort as [|y d Hsort IH Hhd]; simpl; intros d' Hstr.
  - intros [= <-]. split_and!.
    + repeat constructor. by exists s.
    + by repeat constructor.
    + by constructor.
  - apply Forall_cons in Hstr as [[t Ht] Hstr].
    destruct (py_lt x.1 y.1) as [[]|] eqn:Hlt; simpl; [| |done].
    + intros [= <-]. split_and!.
      * repeat constructor; eauto.
      * constructor; [by constructor|]. constructor. unfold not_after.
        rewrite Hs, Ht in *. by apply py_lt_asym.
      * intros z _ Hzx. by constructor.
    + destruct (insert_item x d) as [d0|] eqn:Hins; simpl; [|done].
      intros [= <-]. destruct (IH d0 Hstr eq_refl) as (Hstr0 & Hs0 & Hhd0).
      split_and!.
      * constructor; eauto.
      * constructor; [done|]. by apply Hhd0.
      * intros z Hz _. inversion Hz; subst. by constructor.
Qed.

Lemma sorted_items_Sorted d d' :
  string_keyed d → sorted_items d = Ok d' →
  string_keyed d' ∧ Sorted not_after d'.
Proof.
  revert d'. induction d as [|x d IH]; simpl; intros d' Hstr.
  - intros [= <-]. split; constructor.
  - apply Forall_cons in Hstr as [Hx Hstr].
    destruct (sorted_items d) as [d0|]; simpl; [|done].
    intros Hins. destruct (IH d0 Hstr eq_refl) as [Hstr0 Hs0].
    by destruct (insert_item_Sorted x d0 d' Hx Hstr0 Hs0 Hins) as (? & ? & _).
Qed.

(** Comparisons and the sorts of the keys. *)
Lemma py_lt_Ok (a b : pyval) :
  is_Ok (py_lt a b) ↔ sort_of a = sort_of b ∧ sort_of a ≠ NoneSort.
Proof.
  destruct a, b; simpl; split; try (by intros [? [=]]);
    try (by intros [[=] ?]); try (by intros [? ?]); try (by eexists);
    by intros _.
Qed.

Lemma py_lt_Raise (a b : pyval) e : py_lt a b = Raise e → e = TypeError.
Proof. destruct a, b; simpl; by intros [=]. Qed.

Lemma insert_item_uniform c (x : pyval * V) d :
  c ≠ NoneSort → sort_of x.1 = c → uniform_keys c d →
  ∃ d', insert_item x d = Ok d' ∧ uniform_keys c d'.
Proof.
  intros Hc Hx. induction 1 as [|y d Hy Hd IH]; simpl.
  - eexists. split; [done|]. by repeat constructor.
  - destruct (py_lt x.1 y.1) as [[]|e] eqn:Hlt; simpl.
    + eexists. split; [done|]. by repeat constructor.
    + destruct IH as (d' & -> & Hd'). simpl. eexists. split; [done|].
      by constructor.
    + assert (Hok : is_Ok (py_lt x.1 y.1))
        by (apply py_lt_Ok; split; congruence).
      destruct Hok as [b Hb]. congruence.
Qed.

Lemma sorted_items_uniform c d :
  c ≠ NoneSort → uniform_keys c d →
  ∃ d', sorted_items d = Ok d' ∧ uniform_keys c d'.
Proof.
  intros Hc. induction 1 as [|x d Hx Hd IH]; simpl.
  - eexists. split; [done|]. constructor.
  - destruct IH as (d0 & -> & Hd0). simpl. by apply insert_item_uniform.
Qed.

Lemma insert_item_Raise (x : pyval * V) d e :
  insert_item x d = Raise e → e = TypeError.
Proof.
  induction d as [|y d IH]; simpl; [done|].
  destruct (py_lt x.1 y.1) as [[]|e'] eqn:Hlt; simpl; [done| |].
  - destruct (insert_item x d); simpl; [done|]. intros [= <-]. by apply IH.
  - intros [= <-]. by eapply py_lt_Raise.
Qed.

Lemma sorted_items_Raise d e : sorted_items d = Raise e → e = TypeError.
Proof.
  induction d as [|x d IH]; simpl; [done|].
  destruct (sorted_items d) as [d0|e']; simpl.
  - apply insert_item_Raise.
  - intros [= <-]. by apply IH.
Qed.

(** A dict that is sorted holds keys of one sort. *)
Lemma sorted_items_Ok_uniform d d' :
  sorted_items d = Ok d' → ∃ c, uniform_keys c d.
Proof.
  revert d'. induction d as [|x d IH]; simpl; intros d'.
  - intros _. exists StrSort. constructor.
  - destruct (sorted_items d) as [d0|] eqn:Hd0; simpl; [|done].
    destruct (IH d0 eq_refl) as [c Hc]. intros Hins.
    pose proof (sorted_items_Permutation _ _ Hd0) as Hperm.
    destruct d0 as [|y d0].
    + apply Permutation_nil_l in Hperm as <-. exists (sort_of x.1).
      by repeat constructor.
    + exists c. constructor; [|done]. simpl in Hins.
      assert (Hy : sort_of y.1 = c).
      { unfold uniform_keys in Hc. rewrite <- Hperm in Hc.
        by apply Forall_cons in Hc as [? _]. }
      destruct (py_lt x.1 y.1) as [b|] eqn:Hlt; [|done].
      rewrite <- Hy. apply py_lt_Ok. by exists b.
Qed.
End dict.

(** ** The summary loop *)

(** One iteration on an event with a type: the three statements on
    [event_counts] come to one update of the entry of the kind. *)
Lemma summary_step_eq (st : summary_state) (ev : event) k :
  ev !! "type" = Some k →
  summary_step st ev
  = (let s := default zero_stats (dict_get k (event_counts st)) in
     let duration := get ev "duration" (VNum int_zero) in
     t ← add_num (total_duration s) duration;
     total ← add_num (st_total_duration st) duration;
     mret {| event_counts :=
               dict_set k {| count := S (count s); total_duration := t |}
                 (event_counts st);
             st_total_duration := total |}).
Proof.
  intros Hk. unfold summary_step, getitem, dict_getitem.
  rewrite Hk. cbn [mbind result_bind].
  destruct (dict_get k (event_counts st)) as [s|] eqn:Hget.
  - rewrite Hget. cbn [mbind result_bind default from_option id].
    rewrite dict_get_set_eq. cbn [mbind result_bind count total_duration].
    destruct (add_num (total_duration s) _) as [t|]; cbn [mbind result_bind];
      [|done].
    by rewrite dict_set_set.
  - rewrite !dict_get_set_eq. cbn [mbind result_bind default from_option id].
    rewrite dict_get_set_eq.
    cbn [mbind result_bind count total_duration zero_stats].
    destruct (add_num int_zero _) as [t|]; cbn [mbind result_bind]; [|done].
    by rewrite !dict_set_set.
Qed.

(** One iteration on an event with a type and a numeric duration whose
    two additions are defined. *)
Lemma summary_step_Ok (st : summary_state) (ev : event) k q t total :
  ev !! "type" = Some k →
  get ev "duration" (VNum int_zero) = VNum q →
  num_add (total_duration (default zero_stats (dict_get k (event_counts st))))
    q = Some t →
  num_add (st_total_duration st) q = Some total →
  summary_step st ev
  = Ok {| event_counts :=
            dict_set k
              {| count := S (count (default zero_stats
                                      (dict_get k (event_counts st))));
                 total_duration := t |}
              (event_counts st);
          st_total_duration := total |}.
Proof.
  intros Hk Hq Ht Htotal. rewrite (summary_step_eq st ev k Hk).
  cbn zeta. rewrite Hq. cbn [add_num]. by rewrite Ht, Htotal.
Qed.

(** An iteration that does not raise was given such an event. *)
Lemma summary_step_inv (st st' : summary_state) (ev : event) :
  summary_step st ev = Ok st' →
  ∃ k t total,
    ev !! "type" = Some k
    ∧ get ev "duration" (VNum int_zero) = VNum (stored_duration ev)
    ∧ num_add (total_duration
                 (default zero_stats (dict_get k (event_counts st))))
        (stored_duration ev) = Some t
    ∧ num_add (st_total_duration st) (stored_duration ev) = Some total.
Proof.
  destruct (ev !! "type") as [k|] eqn:Hk;
    [|by unfold summary_step, getitem; rewrite Hk].
  rewrite (summary_step_eq st ev k Hk). cbn zeta.
  unfold stored_duration.
  destruct (get ev "duration" (VNum int_zero)) as [|s|q]; cbn [add_num];
    [done|done|].
  destruct (num_add (total_duration _) q) as [t|] eqn:Ht;
    cbn [mbind result_bind]; [|done].
  destruct (num_add (st_total_duration st) q) as [total|] eqn:Htotal;
    cbn [mbind result_bind]; [|done].
  intros _. by exists k, t, total.
Qed.

Lemma sum_from_app (l1 l2 : list number) : ∀ acc,
  sum_from acc (l1 ++ l2) = sum_from acc l1 ≫= λ a, sum_from a l2.
Proof.
  induction l1 as [|q l1 IH]; intros acc; simpl; [done|].
  destruct (num_add acc q) as [a|]; simpl; [apply IH|done].
Qed.

Lemma sum_from_zero_snoc (l : list number) (q : number) :
  sum_from_zero (l ++ [q]) = sum_from_zero l ≫= λ a, num_add a q.
Proof.
  unfold sum_from_zero. rewrite sum_from_app.
  destruct (sum_from int_zero l) as [a|]; simpl; [|done].
  by destruct (num_add a q).
Qed.

Lemma sum_from_zero_prefix (l1 l2 : list number) :
  is_Some (sum_from_zero (l1 ++ l2)) → is_Some (sum_from_zero l1).
Proof.
  unfold sum_from_zero. rewrite sum_from_app.
  destruct (sum_from int_zero l1); [by eexists|by intros [? [=]]].
Qed.

Lemma events_of_kind_app k (events1 events2 : list event) :
  events_of_kind k (events1 ++ events2)
  = events_of_kind k events1 ++ events_of_kind k events2.
Proof. unfold events_of_kind. by rewrite filter_app. Qed.

Lemma events_of_kind_snoc k (done_ : list event) (ev : event) :
  events_of_kind k (done_ ++ [ev])
  = events_of_kind k done_ ++ (if decide (has_type k ev) then [ev] else []).
Proof. by rewrite events_of_kind_app. Qed.

Lemma events_of_kind_key k k' (events : list event) :
  key_of k = key_of k' → events_of_kind k events = events_of_kind k' events.
Proof. unfold events_of_kind. by intros ->. Qed.

Lemma kind_stats_key k k' (events : list event) :
  key_of k = key_of k' → kind_stats k events = kind_stats k' events.
Proof. intros Hk. unfold kind_stats. by rewrite (events_of_kind_key k k'). Qed.

(** The statistics of a kind after one more event of that kind. *)
Lemma kind_stats_snoc_eq k (done_ : list event) (ev : event) t :
  has_type k ev →
  is_Some (sum_from_zero (stored_duration <$> events_of_kind k done_)) →
  num_add (total_duration (default zero_stats (kind_stats k done_)))
    (stored_duration ev) = Some t →
  kind_stats k (done_ ++ [ev])
  = Some {| count := S (count (default zero_stats (kind_stats k done_)));
            total_duration := t |}.
Proof.
  intros Hk [t0 Ht0]. unfold kind_stats. rewrite events_of_kind_snoc.
  rewrite decide_True by done.
  destruct (events_of_kind k done_) as [|e0 evs] eqn:Hevs.
  - cbn [app default from_option id zero_stats count total_duration fmap list_fmap].
    intros Ht. unfold sum_from_zero. simpl. by rewrite Ht.
  - rewrite Ht0. cbn [mbind option_bind default from_option id count total_duration].
    intros Ht. cbn [app]. rewrite app_comm_cons, fmap_app.
    change (stored_duration <$> [ev]) with [stored_duration ev].
    rewrite sum_from_zero_snoc, Ht0. cbn [mbind option_bind]. rewrite Ht.
    cbn [mbind option_bind]. rewrite length_app. simpl.
    do 2 f_equal. lia.
Qed.

Lemma kind_stats_snoc_ne k (done_ : list event) (ev : event) :
  ¬ has_type k ev → kind_stats k (done_ ++ [ev]) = kind_stats k done_.
Proof.
  intros Hk. unfold kind_stats. rewrite events_of_kind_snoc.
  rewrite decide_False by done. by rewrite app_nil_r.
Qed.

(** The keys of the statistics are types of events. *)
Lemma kind_stats_Some k (events : list event) s :
  kind_stats k events = Some s →
  (∃ ev, ev ∈ events ∧ has_type k ev)
  ∧ count s = length (events_of_kind k events)
  ∧ sum_from_zero (stored_duration <$> events_of_kind k events)
    = Some (total_duration s).
Proof.
  unfold kind_stats.
  destruct (events_of_kind k events) as [|ev evs] eqn:Hf; [done|].
  destruct (sum_from_zero _) as [t|]; [|done]. intros [= <-].
  split; [|done]. exists ev.
  assert (Hin : ev ∈ events_of_kind k events)
    by (rewrite Hf; apply list_elem_of_here).
  apply list_elem_of_filter in Hin as [? ?]. done.
Qed.

Lemma kind_keys_snoc (done_ : list event) (ev : event) :
  kind_keys (done_ ++ [ev]) = keys_step (kind_keys done_) ev.
Proof. unfold kind_keys. by rewrite fold_left_app. Qed.

Lemma summary_inv_init : summary_inv [] summary_init.
Proof.
  split.
  - done.
  - done.
  - intros k. by eexists.
  - constructor.
  - done.
  - constructor.
Qed.

Lemma summary_inv_step done_ st ev st' :
  summary_inv done_ st → summary_step st ev = Ok st' →
  summary_inv (done_ ++ [ev]) st'.
Proof.
  intros [Htot Hcnt Hsums Hkeys Hstored Hevs] Hstep.
  destruct (summary_step_inv _ _ _ Hstep) as (k & t & total & Hk & Hq & Ht
                                              & Htotal).
  rewrite (summary_step_Ok st ev k _ t total Hk Hq Ht Htotal) in Hstep.
  injection Hstep as <-.
  assert (Hty : has_type k ev) by (unfold has_type, has_key; by rewrite Hk).
  rewrite Hcnt in Ht.
  pose proof (kind_stats_snoc_eq k done_ ev t Hty (Hsums k) Ht) as Hnew.
  split; cbn [event_counts st_total_duration].
  - rewrite fmap_app.
    change (stored_duration <$> [ev]) with [stored_duration ev].
    rewrite sum_from_zero_snoc, Htot. done.
  - intros k'. destruct (decide (key_of k = key_of k')) as [Heq|Hne].
    + rewrite <- (dict_get_key k k') by done.
      rewrite <- (kind_stats_key k k') by done.
      by rewrite dict_get_set_eq, Hnew, Hcnt.
    + rewrite dict_get_set_ne, kind_stats_snoc_ne; [done| |done].
      unfold has_type, has_key. rewrite Hk. simpl. by intros [= ?].
  - intros k'. destruct (decide (key_of k = key_of k')) as [Heq|Hne].
    + rewrite <- (events_of_kind_key k k') by done.
      destruct (kind_stats_Some _ _ _ Hnew) as (_ & _ & Hsum).
      rewrite Hsum. by eexists.
    + rewrite events_of_kind_snoc, decide_False, app_nil_r; [done|].
      unfold has_type, has_key. rewrite Hk. simpl. by intros [= ?].
  - by apply dict_set_NoDup.
  - rewrite dict_set_keys, kind_keys_snoc. unfold keys_step.
    by rewrite Hk, Hstored.
  - apply Forall_app. split; [done|]. repeat constructor; [|done].
    by rewrite Hk.
Qed.

Lemma summary_inv_loop rest : ∀ done_ st st',
  summary_inv done_ st → foldlM summary_step st rest = Ok st' →
  summary_inv (done_ ++ rest) st'.
Proof.
  induction rest as [|ev rest IH]; intros done_ st st' Hinv; simpl.
  - intros [= <-]. by rewrite app_nil_r.
  - destruct (summary_step st ev) as [st1|] eqn:Hstep; simpl; [|done].
    intros Hrest. rewrite cons_middle, app_assoc.
    eapply IH; [|done]. by eapply summary_inv_step.
Qed.

Lemma summary_loop_inv (events : list event) st :
  foldlM summary_step summary_init events = Ok st → summary_inv events st.
Proof. apply (summary_inv_loop events [] summary_init), summary_inv_init. Qed.

(** The statistics of a kind that occurs, when its sum is defined. *)
Lemma kind_stats_is_Some k (events : list event) (ev : event) :
  ev ∈ events → has_type k ev →
  is_Some (sum_from_zero (stored_duration <$> events_of_kind k events)) →
  is_Some (kind_stats k events).
Proof.
  intros Hin Hk [t Ht]. unfold kind_stats.
  destruct (events_of_kind k events) as [|e0 evs] eqn:Hf.
  - exfalso. unfold events_of_kind in Hf.
    eapply filter_nil_not_elem_of; done.
  - rewrite Ht. by eexists.
Qed.

(** The loop goes through when every event can be processed and every
    sum is defined. *)
Lemma summary_loop_total rest : ∀ done_ st,
  summary_inv done_ st →
  Forall summable rest →
  is_Some (sum_from_zero (stored_duration <$> done_ ++ rest)) →
  (∀ k, is_Some (sum_from_zero
                   (stored_duration <$> events_of_kind k (done_ ++ rest)))) →
  is_Ok (foldlM summary_step st rest).
Proof.
  induction rest as [|ev rest IH]; intros done_ st Hinv Hall Htot Hkinds;
    simpl.
  - by eexists.
  - apply Forall_cons in Hall as [[[k Hk] Hq] Hall].
    assert (Hty : has_type k ev) by (unfold has_type, has_key; by rewrite Hk).
    assert (Hadd1 : is_Some (num_add (st_total_duration st)
                               (stored_duration ev))).
    { rewrite cons_middle, app_assoc, fmap_app in Htot.
      apply sum_from_zero_prefix in Htot. rewrite fmap_app in Htot.
      change (stored_duration <$> [ev]) with [stored_duration ev] in Htot.
      rewrite sum_from_zero_snoc, (inv_total _ _ Hinv) in Htot.
      exact Htot. }
    assert (Hadd2 : is_Some (num_add
                      (total_duration
                         (default zero_stats (dict_get k (event_counts st))))
                      (stored_duration ev))).
    { specialize (Hkinds k).
      rewrite cons_middle, app_assoc, events_of_kind_app, fmap_app in Hkinds.
      apply sum_from_zero_prefix in Hkinds.
      rewrite events_of_kind_snoc, decide_True, fmap_app in Hkinds by done.
      change (stored_duration <$> [ev]) with [stored_duration ev] in Hkinds.
      rewrite sum_from_zero_snoc in Hkinds.
      rewrite (inv_counts _ _ Hinv). unfold kind_stats.
      destruct (events_of_kind k done_) as [|e0 evs] eqn:Hevs;
        [exact Hkinds|].
      destruct (sum_from_zero (stored_duration <$> e0 :: evs)) as [t0|];
        [exact Hkinds|by destruct Hkinds]. }
    destruct Hadd1 as [total Htotal], Hadd2 as [t Ht].
    pose proof (summary_step_Ok st ev k _ t total Hk Hq Ht Htotal) as Hstep.
    rewrite Hstep. simpl.
    apply (IH (done_ ++ [ev])).
    + by eapply summary_inv_step.
    + done.
    + by rewrite <- app_assoc.
    + intros k'. by rewrite <- app_assoc.
Qed.

(** Each stored key is the type of an event. *)
Lemma kind_keys_elem_of (events : list event) k :
  k ∈ kind_keys events → ∃ ev, ev ∈ events ∧ ev !! "type" = Some k.
Proof.
  induction events as [|ev events IH] using rev_ind.
  - by intros ?%elem_of_nil.
  - rewrite kind_keys_snoc. unfold keys_step.
    destruct (ev !! "type") as [k0|] eqn:Hk0.
    + case_decide.
      * intros (e & He & Hk)%IH. exists e. split; [|done].
        apply elem_of_app. by left.
      * intros [Hin|Hin%list_elem_of_singleton]%elem_of_app.
        -- destruct (IH Hin) as (e & He & Hk). exists e. split; [|done].
           apply elem_of_app. by left.
        -- subst k0. exists ev. split; [|done]. apply elem_of_app. right.
           apply list_elem_of_here.
    + intros (e & He & Hk)%IH. exists e. split; [|done].
      apply elem_of_app. by left.
Qed.

Lemma sort_of_key (a b : pyval) : key_of a = key_of b → sort_of a = sort_of b.
Proof. destruct a, b; simpl; by intros [=]. Qed.

(** ** Printing the rows *)

Lemma mapM_cons {A B} (f : A → result exn B) (x : A) (l : list A) :
  mapM f (x :: l) = y ← f x; k ← mapM f l; mret (y :: k).
Proof. reflexivity. Qed.

Lemma mapM_Ok {A B} (f : A → result exn B) (l : list A) :
  is_Ok (mapM f l) ↔ Forall (λ x, is_Ok (f x)) l.
Proof.
  induction l as [|x l IH].
  - split; [constructor|by eexists].
  - rewrite mapM_cons, Forall_cons, <- IH.
    destruct (f x) as [y|]; cbn [mbind result_bind].
    + destruct (mapM f l) as [k|]; cbn [mbind result_bind].
      * split; [intros _|by eexists]. split; by eexists.
      * split; [by intros [? [=]]|by intros [_ [? [=]]]].
    + split; [by intros [? [=]]|by intros [[? [=]] _]].
Qed.

Lemma mapM_Raise {A B} (f : A → result exn B) (l1 l2 : list A) (x : A) e :
  Forall (λ x, is_Ok (f x)) l1 → f x = Raise e →
  mapM f (l1 ++ x :: l2) = Raise e.
Proof.
  intros Hgood Hbad.
  induction Hgood as [|x0 l1 [y Hy] _ IH]; simpl app; rewrite mapM_cons.
  - by rewrite Hbad.
  - rewrite Hy. cbn [mbind result_bind]. by rewrite IH.
Qed.

Lemma format_kind_Ok (k : pyval) :
  is_Ok (format_kind k) ↔ k ≠ VNone ∧ shows k = true.
Proof.
  destruct k as [|s|n]; simpl.
  - split; [by intros [? [=]]|by intros [? _]].
  - split; [done|by eexists].
  - destruct (num_shows n).
    + split; [done|by eexists].
    + split; [by intros [? [=]]|by intros [_ [=]]].
Qed.

Lemma format_row_Ok (item : pyval * stats) :
  is_Ok (format_row item) ↔
  item.1 ≠ VNone ∧ shows item.1 = true
  ∧ num_renders (total_duration item.2) = true.
Proof.
  unfold format_row. pose proof (format_kind_Ok item.1) as Hkind.
  destruct (format_kind item.1) as [[]|]; cbn [mbind result_bind format_f].
  - destruct (proj1 Hkind) as [Hne Hshow]; [by eexists|].
    destruct (num_renders _); cbn [mbind result_bind].
    + split; [done|by eexists].
    + split; [by intros [? [=]]|by intros (_ & _ & [=])].
  - split; [by intros [? [=]]|]. intros (Hne & Hshow & _).
    by destruct (proj2 Hkind) as [? [=]].
Qed.

(** ** The printed summary *)

Lemma kinds_printable_sums (events : list event) :
  kinds_printable events →
  ∀ k, is_Some (sum_from_zero (stored_duration <$> events_of_kind k events)).
Proof.
  intros Hkinds k.
  destruct (events_of_kind k events) as [|e0 evs] eqn:Hf; [by eexists|].
  assert (Hin : e0 ∈ events_of_kind k events)
    by (rewrite Hf; apply list_elem_of_here).
  apply list_elem_of_filter in Hin as [Hk Hin].
  destruct (Hkinds k e0 Hin Hk) as (t & Ht & _). rewrite Hf in Ht.
  rewrite Ht. by eexists.
Qed.

(** The loop on a whole sequence. *)
Lemma summary_loop_Ok (events : list event) :
  is_Ok (foldlM summary_step summary_init events) ↔
  Forall summable events
  ∧ is_Some (sum_from_zero (stored_duration <$> events))
  ∧ ∀ k, is_Some (sum_from_zero
                    (stored_duration <$> events_of_kind k events)).
Proof.
  split.
  - intros [st Hst]. destruct (summary_loop_inv events st Hst) as [? ? ? ? ? ?].
    split_and!; [done|by eexists|done].
  - intros (Hsum & Htot & Hkinds).
    by apply (summary_loop_total events [] summary_init summary_inv_init).
Qed.

(** The rows of a state that satisfies the invariant. *)
Lemma summary_inv_row (events : list event) st k s :
  summary_inv events st → (k, s) ∈ event_counts st →
  kind_stats k events = Some s.
Proof.
  intros Hinv Hin. rewrite <- (inv_counts _ _ Hinv).
  apply dict_get_elem_of; [apply (inv_keys _ _ Hinv)|done].
Qed.

Lemma summary_inv_key (events : list event) st (ev : event) k :
  summary_inv events st → ev ∈ events → ev !! "type" = Some k →
  ∃ k0 s, key_of k0 = key_of k ∧ (k0, s) ∈ event_counts st
          ∧ kind_stats k events = Some s.
Proof.
  intros Hinv Hev Hk.
  assert (Hty : has_type k ev) by (unfold has_type, has_key; by rewrite Hk).
  destruct (kind_stats_is_Some k events ev Hev Hty (inv_sums _ _ Hinv k))
    as [s Hs].
  pose proof Hs as Hget. rewrite <- (inv_counts _ _ Hinv) in Hget.
  apply dict_get_Some in Hget as (k0 & Hk0 & Hin). by exists k0, s.
Qed.

Lemma summary_keys_string_keyed (events : list event) st :
  summary_inv events st → Forall string_kinded events →
  string_keyed (event_counts st).
Proof.
  intros Hinv Hstr. apply Forall_forall. intros [k s] Hin.
  assert (Hk : k ∈ kind_keys events).
  { rewrite <- (inv_stored _ _ Hinv). apply list_elem_of_fmap.
    by exists (k, s). }
  apply kind_keys_elem_of in Hk as (ev & Hev & Hk).
  rewrite Forall_forall in Hstr. destruct (Hstr ev Hev) as [name Hname].
  exists name. simpl. congruence.
Qed.

Lemma string_keyed_uniform {V} (d : list (pyval * V)) :
  string_keyed d ↔ uniform_keys StrSort d.
Proof.
  unfold string_keyed, uniform_keys. apply Forall_proper; [|done].
  intros [k v]. simpl. destruct k; split; try done; try by intros [? [=]].
  by eexists.
Qed.

(** C8: whenever the summary is printed, it reports the number of
    events, as total analysis time the sum of the stored durations of all
    events, and one row per kind that occurs, holding the number of
    events of that kind and the sum of their stored durations; a kind
    that does not occur has no row, and rows of string kinds are in
    sorted order.  The sums are those of Python, taken from the literal 0
    in the order of the events.  It is printed for every sequence of
    events that have a string kind and a numeric (or absent) duration,
    provided the total and the total of every kind are defined and
    rendered. *)
Theorem summary_statistics (events : list event) :
  (Forall summable events → Forall string_kinded events →
   printable_sum (stored_duration <$> events) →
   kinds_printable events →
   is_Ok (display_events_summary events))
  ∧ ∀ report,
      display_events_summary events = Ok report →
      Forall summable events
      ∧ report_n_events report = length events
      ∧ sum_from_zero (stored_duration <$> events)
        = Some (report_total report)
      ∧ NoDup (key_of <$> (report_rows report).*1)
      ∧ (Forall string_kinded events → Sorted not_after (report_rows report))
      ∧ (∀ k, dict_get k (report_rows report) = kind_stats k events)
      ∧ (∀ k, dict_get k (report_rows report) = None
              ↔ events_of_kind k events = [])
      ∧ (∀ k s, dict_get k (report_rows report) = Some s →
           count s = length (events_of_kind k events)
           ∧ sum_from_zero (stored_duration <$> events_of_kind k events)
             = Some (total_duration s)).
Proof.
  unfold display_events_summary. split.
  - intros Hsum Hstr (t & Ht & Hrender) Hkinds.
    destruct (proj2 (summary_loop_Ok events)) as [st Hst].
    { split_and!; [done|by eexists|by apply kinds_printable_sums]. }
    rewrite Hst. cbn [mbind result_bind].
    pose proof (summary_loop_inv events st Hst) as Hinv.
    rewrite (inv_total _ _ Hinv) in Ht. injection Ht as <-.
    cbn [format_f]. rewrite Hrender. cbn [mbind result_bind].
    pose proof (summary_keys_string_keyed events st Hinv Hstr) as Hkeyed.
    destruct (sorted_items (event_counts st)) as [rows|e] eqn:Hrows.
    2:{ apply string_keyed_uniform in Hkeyed.
        destruct (sorted_items_uniform StrSort (event_counts st))
          as (rows & Hrows' & _); [done|done|congruence]. }
    cbn [mbind result_bind].
    destruct (sorted_items_Sorted _ _ Hkeyed Hrows) as [Hkeyed' _].
    apply sorted_items_Permutation in Hrows.
    assert (Hall : is_Ok (mapM format_row rows)).
    { apply mapM_Ok, Forall_forall. intros [k s] Hin.
      unfold string_keyed in Hkeyed'. rewrite Forall_forall in Hkeyed'.
      destruct (Hkeyed' _ Hin) as [name Hname]. simpl in Hname. subst k.
      apply format_row_Ok. split_and!; [done|done|]. simpl.
      rewrite Hrows in Hin.
      pose proof (summary_inv_row _ _ _ _ Hinv Hin) as Hstats.
      apply kind_stats_Some in Hstats as ((ev & Hev & Hty) & _ & Hs).
      destruct (Hkinds _ ev Hev Hty) as (t & Ht & Hr). congruence. }
    destruct Hall as [? ->]. by eexists.
  - intros report.
    destruct (foldlM summary_step summary_init events) as [st|] eqn:Hst;
      cbn [mbind result_bind]; [|done].
    cbn [format_f]. destruct (num_renders (st_total_duration st));
      cbn [mbind result_bind]; [|done].
    destruct (sorted_items (event_counts st)) as [rows|] eqn:Hrows;
      cbn [mbind result_bind]; [|done].
    destruct (mapM format_row rows) as [?|]; cbn [mbind result_bind]; [|done].
    intros [= <-]. cbn [report_n_events report_total report_rows].
    pose proof (summary_loop_inv events st Hst) as Hinv.
    destruct Hinv as [Htot Hcnt Hsums Hkeys Hstored Hevs].
    pose proof (sorted_items_Permutation _ _ Hrows) as Hperm.
    assert (Hget : ∀ k, dict_get k rows = kind_stats k events).
    { intros k. rewrite <- Hcnt. symmetry. by apply dict_get_Permutation. }
    split_and!; try done.
    + by rewrite Hperm.
    + intros Hstr. eapply sorted_items_Sorted; [|done].
      eapply summary_keys_string_keyed; [|done]. by split.
    + intros k. rewrite Hget. unfold kind_stats.
      destruct (Hsums k) as [t Ht].
      destruct (events_of_kind k events); [done|]. by rewrite Ht.
    + intros k s. rewrite Hget.
      by intros (_ & ? & ?)%kind_stats_Some.
Qed.

(** ** Missing fields *)

Lemma summary_step_same_fields (st : summary_state) (ev ev' : event) :
  same_summary_fields ev ev' → summary_step st ev = summary_step st ev'.
Proof.
  intros [Hty Hdur]. unfold summary_step, getitem. by rewrite Hty, Hdur.
Qed.

Lemma summary_loop_same_fields (events events' : list event) :
  Forall2 same_summary_fields events events' →
  ∀ st, foldlM summary_step st events = foldlM summary_step st events'.
Proof.
  induction 1 as [|ev ev' events events' Hev _ IH]; intros st; simpl.
  - done.
  - rewrite (summary_step_same_fields st ev ev' Hev).
    destruct (summary_step st ev') as [st1|]; simpl; [apply IH|done].
Qed.

Lemma display_events_summary_same_fields (events events' : list event) :
  Forall2 same_summary_fields events events' →
  display_events_summary events = display_events_summary events'.
Proof.
  intros Hall. unfold display_events_summary.
  rewrite (summary_loop_same_fields events events' Hall).
  by rewrite (Forall2_length _ _ _ Hall).
Qed.

Lemma same_summary_fields_refl (ev : event) : same_summary_fields ev ev.
Proof. by split. Qed.

Lemma same_summary_fields_missing_duration (ev : event) :
  ev !! "duration" = None →
  same_summary_fields ev (<["duration" := VNum int_zero]> ev).
Proof.
  intros Hnone. split.
  - by rewrite lookup_insert_ne.
  - unfold get. by rewrite Hnone, lookup_insert_eq.
Qed.

Lemma same_summary_fields_bound (ev : event) (key : string) (v : pyval) :
  key ≠ "type" → key ≠ "duration" →
  same_summary_fields ev (<[key := v]> ev).
Proof.
  intros Hty Hdur. split.
  - by rewrite lookup_insert_ne.
  - unfold get. by rewrite lookup_insert_ne.
Qed.

Lemma stored_duration_missing (ev : event) :
  ev !! "duration" = None → stored_duration ev = int_zero.
Proof. intros Hnone. unfold stored_duration, get. by rewrite Hnone. Qed.

(** Sums of zeros. *)
Lemma sum_from_zero_zeros (l : list number) :
  Forall (λ q, q = int_zero) l → sum_from_zero l = Some int_zero.
Proof.
  unfold sum_from_zero. induction 1 as [|q l -> _ IH]; simpl; [done|].
  by rewrite int_zero_add.
Qed.

Lemma stored_durations_missing (events : list event) :
  Forall (λ ev, ev !! "duration" = None) events →
  Forall (λ q, q = int_zero) (stored_duration <$> events).
Proof.
  intros Hall. apply Forall_fmap. eapply Forall_impl; [done|].
  intros ev. apply stored_duration_missing.
Qed.

Lemma events_of_kind_Forall (P : event → Prop) k (events : list event) :
  Forall P events → Forall P (events_of_kind k events).
Proof.
  rewrite !Forall_forall. intros Hall ev Hev. apply Hall.
  unfold events_of_kind in Hev. by apply list_elem_of_filter in Hev as [_ ?].
Qed.

(** C10: an event without a ['duration'] key enters both accumulators
    of the summary with the literal 0, whatever its time bounds are: one
    iteration on it adds 0 to the total of its kind and to the overall
    total and counts the event; a sequence in which no event has a
    ['duration'] is reported with the total 0 and the total 0 in every
    row; a missing ['duration'] is the same as a stored 0; the summary
    never looks at the time bounds, so overwriting ['start_time'] or
    ['end_time'] of every event leaves it unchanged; in the detailed
    listing a missing ['start_time'] or ['end_time'] is printed as 0. *)
Theorem missing_fields_default_to_zero :
  (∀ (st : summary_state) (ev : event) k,
     ev !! "type" = Some k →
     ev !! "duration" = None →
     summary_step st ev
     = (let s := default zero_stats (dict_get k (event_counts st)) in
        t ← add_num (total_duration s) (VNum int_zero);
        total ← add_num (st_total_duration st) (VNum int_zero);
        mret {| event_counts :=
                  dict_set k {| count := S (count s); total_duration := t |}
                    (event_counts st);
                st_total_duration := total |}))
  ∧ (∀ events : list event,
       Forall (λ ev, ev !! "duration" = None) events →
       Forall string_kinded events →
       ∃ report,
         display_events_summary events = Ok report
         ∧ report_n_events report = length events
         ∧ report_total report = int_zero
         ∧ (∀ ev k, ev ∈ events → ev !! "type" = Some k →
              dict_get k (report_rows report)
              = Some {| count := length (events_of_kind k events);
                        total_duration := int_zero |}))
  ∧ (∀ (events1 events2 : list event) (ev : event),
       ev !! "duration" = None →
       stored_duration ev = int_zero
       ∧ display_events_summary (events1 ++ ev :: events2)
         = display_events_summary
             (events1 ++ <["duration" := VNum int_zero]> ev :: events2))
  ∧ (∀ (events : list event) (v : pyval),
       display_events_summary (insert "start_time" v <$> events)
       = display_events_summary events
       ∧ display_events_summary (insert "end_time" v <$> events)
         = display_events_summary events)
  ∧ (∀ (ev : event) k b,
       ev !! "type" = Some k →
       shows k = true →
       ev !! "start_time" = None →
       get ev "end_time" (VNum int_zero) = VNum b →
       num_renders b = true →
       detail_row_of ev
       = Ok {| row_number := number_of k;
               row_display_name := display_name_of k;
               row_start_time := int_zero; row_end_time := b |})
  ∧ (∀ (ev : event) k a,
       ev !! "type" = Some k →
       shows k = true →
       get ev "start_time" (VNum int_zero) = VNum a →
       num_renders a = true →
       ev !! "end_time" = None →
       detail_row_of ev
       = Ok {| row_number := number_of k;
               row_display_name := display_name_of k;
               row_start_time := a; row_end_time := int_zero |}).
Proof.
  split_and!.
  - intros st ev k Hk Hnone. rewrite (summary_step_eq st ev k Hk).
    unfold get. by rewrite Hnone.
  - intros events Hnone Hstr.
    pose proof (stored_durations_missing events Hnone) as Hzeros.
    assert (Hsum : Forall summable events).
    { rewrite Forall_forall in Hnone, Hstr. apply Forall_forall.
      intros ev Hev. destruct (Hstr ev Hev) as [s Hs]. split; [by eexists|].
      rewrite (stored_duration_missing ev (Hnone ev Hev)).
      unfold get. by rewrite (Hnone ev Hev). }
    assert (Hkind : ∀ k,
      sum_from_zero (stored_duration <$> events_of_kind k events)
      = Some int_zero).
    { intros k. apply sum_from_zero_zeros, stored_durations_missing.
      by apply events_of_kind_Forall. }
    destruct (summary_statistics events) as [Hok Hrep].
    destruct Hok as [report Hreport]; [done|done| | |].
    { exists int_zero. split; [by apply sum_from_zero_zeros|].
      apply int_zero_renders. }
    { intros k ev _ _. exists int_zero. split; [apply Hkind|].
      apply int_zero_renders. }
    exists report. split; [done|].
    destruct (Hrep report Hreport) as (_ & Hn & Htot & _ & _ & Hget & _).
    split; [done|]. split.
    + rewrite (sum_from_zero_zeros _ Hzeros) in Htot. by injection Htot.
    + intros ev k Hev Hk. rewrite Hget. unfold kind_stats.
      assert (Hin : ev ∈ events_of_kind k events).
      { apply list_elem_of_filter. split; [|done].
        unfold has_key. by rewrite Hk. }
      specialize (Hkind k).
      destruct (events_of_kind k events) as [|e0 evs];
        [by apply elem_of_nil in Hin|].
      by rewrite Hkind.
  - intros events1 events2 ev Hnone. split.
    + by apply stored_duration_missing.
    + apply display_events_summary_same_fields. apply Forall2_app.
      * apply Forall_Forall2_diag, Forall_forall.
        intros ? _. apply same_summary_fields_refl.
      * constructor; [by apply same_summary_fields_missing_duration|].
        apply Forall_Forall2_diag, Forall_forall.
        intros ? _. apply same_summary_fields_refl.
  - intros events v. split; symmetry;
      apply display_events_summary_same_fields, Forall2_fmap_r,
        Forall_Forall2_diag, Forall_forall; intros ev _;
      by apply same_summary_fields_bound.
  - intros ev k b Hk Hshow Hnone Hb Hrb.
    apply detail_row_of_eq; try done.
    + unfold get. by rewrite Hnone.
    + apply int_zero_renders.
  - intros ev k a Hk Hshow Ha Hra Hnone.
    apply detail_row_of_eq; try done.
    + unfold get. by rewrite Hnone.
    + apply int_zero_renders.
Qed.

(** ** More on the summary *)

Lemma total_count_Permutation (d d' : list (pyval * stats)) :
  d ≡ₚ d' → total_count d = total_count d'.
Proof.
  induction 1 as [|x d d' _ IH|x y d|d1 d2 d3 _ IH1 _ IH2]; simpl.
  - done.
  - by rewrite IH.
  - lia.
  - by rewrite IH1.
Qed.

Lemma total_count_bump k t (d : list (pyval * stats)) :
  total_count
    (dict_set k {| count := S (count (default zero_stats (dict_get k d)));
                   total_duration := t |} d)
  = S (total_count d).
Proof.
  induction d as [|[k0 s0] d IH]; simpl; [done|].
  destruct (decide (key_of k0 = key_of k)) as [Heq|Hne]; simpl; [done|].
  by rewrite IH.
Qed.

Lemma summary_loop_total_count (events : list event) : ∀ st st',
  foldlM summary_step st events = Ok st' →
  total_count (event_counts st')
  = (total_count (event_counts st) + length events)%nat.
Proof.
  induction events as [|ev events IH]; intros st st'; simpl.
  - intros [= <-]. lia.
  - destruct (summary_step st ev) as [st1|] eqn:Hstep; simpl; [|done].
    intros Hrest. rewrite (IH _ _ Hrest).
    destruct (summary_step_inv _ _ _ Hstep)
      as (k & t & total & Hk & Hq & Ht & Htotal).
    rewrite (summary_step_Ok st ev k _ t total Hk Hq Ht Htotal) in Hstep.
    injection Hstep as <-. simpl. rewrite total_count_bump. lia.
Qed.

Lemma kind_stats_count k (events : list event) s :
  kind_stats k events = Some s → (1 ≤ count s)%nat.
Proof.
  unfold kind_stats. destruct (events_of_kind k events); [done|].
  destruct (sum_from_zero _); [|done]. intros [= <-]. simpl. lia.
Qed.

(** The stages of [display_events_summary] one by one. *)
Lemma display_events_summary_Ok (events : list event) report :
  display_events_summary events = Ok report →
  ∃ st,
    foldlM summary_step summary_init events = Ok st
    ∧ num_renders (st_total_duration st) = true
    ∧ sorted_items (event_counts st) = Ok (report_rows report)
    ∧ is_Ok (mapM format_row (report_rows report))
    ∧ report_n_events report = length events
    ∧ report_total report = st_total_duration st.
Proof.
  unfold display_events_summary.
  destruct (foldlM summary_step summary_init events) as [st|] eqn:Hst;
    cbn [mbind result_bind]; [|done].
  cbn [format_f]. destruct (num_renders (st_total_duration st)) eqn:Hr;
    cbn [mbind result_bind]; [|done].
  destruct (sorted_items (event_counts st)) as [rows|] eqn:Hrows;
    cbn [mbind result_bind]; [|done].
  destruct (mapM format_row rows) as [?|] eqn:Hfmt; cbn [mbind result_bind];
    [|done].
  intros [= <-]. exists st. cbn [report_n_events report_total report_rows].
  split_and!; try done. by eexists.
Qed.

(** X13: in a printed summary the counts of the rows add up to the
    number of events, and no row has the count 0. *)
Theorem summary_counts_add_up (events : list event) (report : summary_report) :
  display_events_summary events = Ok report →
  total_count (report_rows report) = length events
  ∧ report_n_events report = length events
  ∧ ∀ k s, (k, s) ∈ report_rows report → (1 ≤ count s)%nat.
Proof.
  intros (st & Hst & _ & Hrows & _ & Hn & _)%display_events_summary_Ok.
  apply sorted_items_Permutation in Hrows.
  pose proof (summary_loop_inv events st Hst) as Hinv.
  split; [|split; [done|]].
  - rewrite (total_count_Permutation _ _ Hrows).
    by rewrite (summary_loop_total_count events _ _ Hst).
  - intros k s Hin. rewrite Hrows in Hin.
    eapply kind_stats_count. by eapply summary_inv_row.
Qed.

(** Every type of an event has the sort of the keys of the dict. *)
Lemma summary_events_uniform (events : list event) st c :
  summary_inv events st → uniform_keys c (event_counts st) →
  ∀ ev k, ev ∈ events → ev !! "type" = Some k → sort_of k = c.
Proof.
  intros Hinv Huni ev k Hev Hk.
  destruct (summary_inv_key events st ev k Hinv Hev Hk)
    as (k0 & s & Hk0 & Hin & _).
  unfold uniform_keys in Huni. rewrite Forall_forall in Huni.
  rewrite <- (Huni (k0, s) Hin). symmetry. by apply sort_of_key.
Qed.

Lemma summary_keys_uniform (events : list event) st c :
  summary_inv events st →
  (∀ ev k, ev ∈ events → ev !! "type" = Some k → sort_of k = c) →
  uniform_keys c (event_counts st).
Proof.
  intros Hinv Hall. apply Forall_forall. intros [k s] Hin.
  assert (Hk : k ∈ kind_keys events).
  { rewrite <- (inv_stored _ _ Hinv). apply list_elem_of_fmap.
    by exists (k, s). }
  apply kind_keys_elem_of in Hk as (ev & Hev & Hk). by eapply Hall.
Qed.

(** X14: the summary is printed exactly for the sequences in which
    every event has a ['type'] and a numeric or absent ['duration'], the
    sum of all durations and the sum of every kind that occurs are
    defined and rendered, and the kinds are all strings, or all numbers
    whose stored keys are written out. *)
Theorem summary_succeeds_iff (events : list event) :
  is_Ok (display_events_summary events) ↔
  Forall summable events
  ∧ printable_sum (stored_duration <$> events)
  ∧ kinds_printable events
  ∧ (Forall string_kinded events
     ∨ (Forall number_kinded events
        ∧ Forall (λ k, shows k = true) (kind_keys events))).
Proof.
  split.
  - intros [report Hreport].
    destruct (display_events_summary_Ok _ _ Hreport)
      as (st & Hst & Hrender & Hrows & Hfmt & _ & _).
    pose proof (summary_loop_inv events st Hst) as Hinv.
    pose proof (sorted_items_Permutation _ _ Hrows) as Hperm.
    rewrite mapM_Ok, Forall_forall in Hfmt.
    assert (Hrow : ∀ k s, (k, s) ∈ event_counts st →
              k ≠ VNone ∧ shows k = true
              ∧ num_renders (total_duration s) = true).
    { intros k s Hin. apply (format_row_Ok (k, s)), Hfmt. by rewrite Hperm. }
    split_and!.
    + apply (inv_events _ _ Hinv).
    + exists (st_total_duration st). split; [apply (inv_total _ _ Hinv)|done].
    + intros k ev Hev Hty.
      destruct (kind_stats_is_Some k events ev Hev Hty (inv_sums _ _ Hinv k))
        as [s Hs].
      pose proof Hs as Hget. rewrite <- (inv_counts _ _ Hinv) in Hget.
      apply dict_get_Some in Hget as (k0 & _ & Hin).
      apply kind_stats_Some in Hs as (_ & _ & Hsum).
      exists (total_duration s). split; [done|]. by apply (Hrow k0 s).
    + destruct (sorted_items_Ok_uniform _ _ Hrows) as [c Hc].
      pose proof (summary_events_uniform events st c Hinv Hc) as Hsort.
      assert (Hne : ∀ ev, ev ∈ events → c ≠ NoneSort).
      { intros ev Hev ->.
        pose proof (inv_events _ _ Hinv) as Hsum.
        rewrite Forall_forall in Hsum. destruct (Hsum ev Hev) as [[k Hk] _].
        destruct (summary_inv_key events st ev k Hinv Hev Hk)
          as (k0 & s & Hk0 & Hin & _).
        destruct (Hrow k0 s Hin) as [Hk0' _].
        unfold uniform_keys in Hc. rewrite Forall_forall in Hc.
        specialize (Hc (k0, s) Hin). simpl in Hc. by destruct k0. }
      assert (Hkinds : ∀ ev, ev ∈ events →
                ∃ k, ev !! "type" = Some k ∧ sort_of k = c).
      { intros ev Hev. pose proof (inv_events _ _ Hinv) as Hsum.
        rewrite Forall_forall in Hsum. destruct (Hsum ev Hev) as [[k Hk] _].
        exists k. split; [done|]. by eapply Hsort. }
      destruct c.
      * left. apply Forall_forall. intros ev Hev. by destruct (Hne ev Hev).
      * left. apply Forall_forall. intros ev Hev.
        destruct (Hkinds ev Hev) as (k & Hk & Hc').
        destruct k; try done. by eexists.
      * right. split.
        -- apply Forall_forall. intros ev Hev.
           destruct (Hkinds ev Hev) as (k & Hk & Hc').
           destruct k; try done. by eexists.
        -- rewrite <- (inv_stored _ _ Hinv). apply Forall_forall.
           intros k ([k0 s] & -> & Hin)%list_elem_of_fmap.
           by apply (Hrow k0 s).
  - intros (Hsum & (t & Ht & Hrender) & Hkinds & Hsorts).
    unfold display_events_summary.
    destruct (proj2 (summary_loop_Ok events)) as [st Hst].
    { split_and!; [done|by eexists|by apply kinds_printable_sums]. }
    rewrite Hst. cbn [mbind result_bind].
    pose proof (summary_loop_inv events st Hst) as Hinv.
    rewrite (inv_total _ _ Hinv) in Ht. injection Ht as <-.
    cbn [format_f]. rewrite Hrender. cbn [mbind result_bind].
    assert (Huni : ∃ c, c ≠ NoneSort ∧ uniform_keys c (event_counts st)).
    { destruct Hsorts as [Hstr|[Hnum _]]; [exists StrSort|exists NumSort];
        (split; [done|]); apply (summary_keys_uniform events st _ Hinv);
        intros ev k Hev Hk.
      - rewrite Forall_forall in Hstr. destruct (Hstr ev Hev) as [s Hs].
        rewrite Hs in Hk. by injection Hk as <-.
      - rewrite Forall_forall in Hnum. destruct (Hnum ev Hev) as [q Hq].
        rewrite Hq in Hk. by injection Hk as <-. }
    destruct Huni as (c & Hc & Huni).
    destruct (sorted_items_uniform c (event_counts st) Hc Huni)
      as (rows & Hrows & Huni').
    rewrite Hrows. cbn [mbind result_bind].
    apply sorted_items_Permutation in Hrows.
    assert (Hall : is_Ok (mapM format_row rows)).
    { apply mapM_Ok, Forall_forall. intros [k s] Hin.
      apply format_row_Ok. simpl.
      unfold uniform_keys in Huni'. rewrite Forall_forall in Huni'.
      pose proof (Huni' _ Hin) as Hsort. simpl in Hsort.
      rewrite Hrows in Hin. split_and!.
      - intros ->. by subst c.
      - destruct Hsorts as [Hstr|[_ Hshow]].
        + pose proof (summary_keys_string_keyed events st Hinv Hstr) as Hk.
          unfold string_keyed in Hk. rewrite Forall_forall in Hk.
          destruct (Hk _ Hin) as [name Hname]. simpl in Hname. by subst k.
        + rewrite <- (inv_stored _ _ Hinv), Forall_forall in Hshow.
          apply Hshow. apply list_elem_of_fmap. by exists (k, s).
      - pose proof (summary_inv_row _ _ _ _ Hinv Hin) as Hstats.
        apply kind_stats_Some in Hstats as ((ev & Hev & Hty) & _ & Hs).
        destruct (Hkinds _ ev Hev Hty) as (t & Ht & Hr). congruence. }
    destruct Hall as [? ->]. by eexists.
Qed.

(** X15: when every event has a ['type'] and a numeric or absent
    ['duration'] and every sum is defined and the total rendered, but one
    kind is a string and another one a number, the summary raises
    [TypeError]. *)
Theorem summary_mixed_kinds (events : list event) (ev1 ev2 : event) :
  Forall summable events →
  printable_sum (stored_duration <$> events) →
  (∀ k, is_Some (sum_from_zero
                   (stored_duration <$> events_of_kind k events))) →
  ev1 ∈ events → string_kinded ev1 →
  ev2 ∈ events → number_kinded ev2 →
  display_events_summary events = Raise TypeError.
Proof.
  intros Hsum (t & Ht & Hrender) Hkinds Hev1 [s Hs] Hev2 [q Hq].
  unfold display_events_summary.
  destruct (proj2 (summary_loop_Ok events)) as [st Hst].
  { split_and!; [done|by eexists|done]. }
  rewrite Hst. cbn [mbind result_bind].
  pose proof (summary_loop_inv events st Hst) as Hinv.
  rewrite (inv_total _ _ Hinv) in Ht. injection Ht as <-.
  cbn [format_f]. rewrite Hrender. cbn [mbind result_bind].
  destruct (sorted_items (event_counts st)) as [rows|e] eqn:Hrows;
    cbn [mbind result_bind].
  - exfalso. destruct (sorted_items_Ok_uniform _ _ Hrows) as [c Hc].
    pose proof (summary_events_uniform events st c Hinv Hc) as Hsort.
    pose proof (Hsort ev1 _ Hev1 Hs) as H1.
    pose proof (Hsort ev2 _ Hev2 Hq) as H2. simpl in H1, H2. congruence.
  - f_equal. by eapply sorted_items_Raise.
Qed.

Lemma foldlM_app {E A B} (f : A → B → result E A) (l1 l2 : list B) : ∀ a,
  foldlM f a (l1 ++ l2) = foldlM f a l1 ≫= λ a', foldlM f a' l2.
Proof.
  induction l1 as [|x l1 IH]; intros a; simpl; [done|].
  destruct (f a x); simpl; [apply IH|done].
Qed.

Lemma summary_step_Raise (st : summary_state) (ev : event) :
  ¬ summable ev →
  summary_step st ev
  = Raise (if ev !! "type" is Some _ then TypeError
           else KeyError (VStr "type")).
Proof.
  intros Hbad.
  destruct (ev !! "type") as [k|] eqn:Hk;
    [|by unfold summary_step, getitem; rewrite Hk].
  rewrite (summary_step_eq st ev k Hk). cbn zeta.
  destruct (get ev "duration" (VNum int_zero)) as [|s|q] eqn:Hq;
    [done|done|].
  exfalso. apply Hbad. split; [by rewrite Hk|].
  unfold stored_duration. by rewrite Hq.
Qed.

(** X16: the first event that the summary cannot process decides the
    exception, when the sums of the events before it are defined:
    [KeyError] for ['type'] when the event has no ['type'], [TypeError]
    when its ['duration'] is not a number. *)
Theorem summary_first_bad_event (events1 events2 : list event) (ev : event) :
  Forall summable events1 →
  is_Some (sum_from_zero (stored_duration <$> events1)) →
  (∀ k, is_Some (sum_from_zero
                   (stored_duration <$> events_of_kind k events1))) →
  ¬ summable ev →
  display_events_summary (events1 ++ ev :: events2)
  = Raise (if ev !! "type" is Some _ then TypeError
           else KeyError (VStr "type")).
Proof.
  intros Hgood Htot Hkinds Hbad. unfold display_events_summary.
  rewrite foldlM_app.
  destruct (proj2 (summary_loop_Ok events1)) as [st ->]; [done|].
  cbn [mbind result_bind foldlM].
  by rewrite (summary_step_Raise st ev Hbad).
Qed.

(** X23: a number too large ends the summary with [OverflowError]:
    in the loop, at the first event whose duration cannot be added to the
    total of its kind or to the overall total, and after the loop, when
    the overall total is not rendered. *)
Theorem summary_overflow (events1 events2 : list event) (ev : event) :
  Forall summable (events1 ++ [ev]) →
  is_Some (sum_from_zero (stored_duration <$> events1)) →
  (∀ k, is_Some (sum_from_zero
                   (stored_duration <$> events_of_kind k events1))) →
  ((sum_from_zero (stored_duration <$> events1 ++ [ev]) = None
    ∨ ∃ k, sum_from_zero
             (stored_duration <$> events_of_kind k (events1 ++ [ev])) = None) →
   display_events_summary (events1 ++ ev :: events2) = Raise OverflowError)
  ∧ (∀ t,
       sum_from_zero (stored_duration <$> events1 ++ [ev]) = Some t →
       (∀ k, is_Some (sum_from_zero
               (stored_duration <$> events_of_kind k (events1 ++ [ev])))) →
       num_renders t = false →
       display_events_summary (events1 ++ [ev]) = Raise OverflowError).
Proof.
  intros Hsum Htot Hkinds. split.
  - intros Hnone. unfold display_events_summary. rewrite foldlM_app.
    apply Forall_app in Hsum as [Hsum1 Hev].
    apply Forall_singleton in Hev as [[k Hk] Hq].
    destruct (proj2 (summary_loop_Ok events1)) as [st Hst]; [done|].
    rewrite Hst. cbn [mbind result_bind foldlM].
    pose proof (summary_loop_inv events1 st Hst) as Hinv.
    destruct (summary_step st ev) as [st'|e] eqn:Hstep.
    + exfalso.
      pose proof (summary_inv_step _ _ _ _ Hinv Hstep) as Hinv'.
      destruct Hnone as [Hnone|[k' Hnone]].
      * by rewrite (inv_total _ _ Hinv') in Hnone.
      * destruct (inv_sums _ _ Hinv' k') as [? ?]. congruence.
    + cbn [mbind result_bind]. f_equal.
      rewrite (summary_step_eq st ev k Hk) in Hstep. cbn zeta in Hstep.
      rewrite Hq in Hstep. cbn [add_num] in Hstep.
      destruct (num_add (total_duration _) (stored_duration ev));
        cbn [mbind result_bind] in Hstep; [|by injection Hstep].
      destruct (num_add (st_total_duration st) (stored_duration ev));
        cbn [mbind result_bind] in Hstep; [done|by injection Hstep].
  - intros t Ht Hkinds' Hrender. unfold display_events_summary.
    destruct (proj2 (summary_loop_Ok (events1 ++ [ev]))) as [st Hst].
    { split_and!; [done|by eexists|done]. }
    rewrite Hst. cbn [mbind result_bind].
    pose proof (summary_loop_inv _ st Hst) as Hinv.
    rewrite (inv_total _ _ Hinv) in Ht. injection Ht as <-.
    cbn [format_f]. by rewrite Hrender.
Qed.

(** ** More on the detailed listing *)

Lemma number_of_range (event_type : pyval) : 1 ≤ number_of event_type ≤ 12.
Proof.
  unfold number_of. destruct event_type as [|s|q]; simpl; [lia| |lia].
  destruct (type_to_number !! s) as [n|] eqn:Hn; simpl; [|lia].
  apply elem_of_list_to_map_2 in Hn.
  assert (Hall : Forall (λ x : string * Z, 1 ≤ x.2 ≤ 12) type_to_number_items)
    by (repeat constructor; simpl; lia).
  rewrite Forall_forall in Hall. apply (Hall (s, n) Hn).
Qed.

Lemma detail_row_of_Ok (ev : event) :
  is_Ok (detail_row_of ev) ↔ printable ev.
Proof.
  rewrite detail_row_of_cases. unfold printable. split.
  - intros [row Hrow].
    destruct (ev !! "type") as [k|]; [|done].
    destruct (shows k) eqn:Hshow; [|done].
    destruct (get ev "start_time" (VNum int_zero)) as [|s|a]; [done|done|].
    destruct (num_renders a) eqn:Hra; [|done].
    destruct (get ev "end_time" (VNum int_zero)) as [|s|b]; [done|done|].
    destruct (num_renders b) eqn:Hrb; [|done].
    by exists k, a, b.
  - intros (k & a & b & -> & -> & -> & -> & -> & ->). by eexists.
Qed.

Lemma detail_row_of_number (ev : event) (r : detail_row) :
  detail_row_of ev = Ok r → 1 ≤ row_number r ≤ 12.
Proof.
  rewrite detail_row_of_cases.
  destruct (ev !! "type") as [k|]; [|done].
  destruct (shows k); [|done].
  destruct (get ev "start_time" (VNum int_zero)) as [|s|a]; [done|done|].
  destruct (num_renders a); [|done].
  destruct (get ev "end_time" (VNum int_zero)) as [|s|b]; [done|done|].
  destruct (num_renders b); [|done].
  intros [= <-]. apply number_of_range.
Qed.

Lemma display_detailed_events_cons (ev : event) (events : list event) :
  display_detailed_events (ev :: events)
  = r ← detail_row_of ev;
    rows ← display_detailed_events events;
    mret (r :: rows).
Proof. reflexivity. Qed.

(** X17: the detailed listing has one row per event, in the order of the
    events; each row is the one built from its event, and the code it
    shows lies between 1 and 12. *)
Theorem detailed_rows_follow_events (events : list event)
    (rows : list detail_row) :
  display_detailed_events events = Ok rows →
  length rows = length events
  ∧ Forall2 (λ ev r, detail_row_of ev = Ok r) events rows
  ∧ Forall (λ r, 1 ≤ row_number r ≤ 12) rows.
Proof.
  revert rows. induction events as [|ev events IH]; intros rows.
  - intros [= <-]. by repeat constructor.
  - rewrite display_detailed_events_cons.
    destruct (detail_row_of ev) as [r|] eqn:Hr; cbn [mbind result_bind];
      [|done].
    destruct (display_detailed_events events) as [rows'|];
      cbn [mbind result_bind]; [|done].
    intros [= <-]. destruct (IH rows' eq_refl) as (Hlen & Hall & Hrange).
    split_and!.
    + simpl. by rewrite Hlen.
    + by constructor.
    + constructor; [|done]. by eapply detail_row_of_number.
Qed.

(** X18: the detailed listing is printed in full exactly when every
    event has a ['type'] that is written out and numeric or absent times
    that are rendered; otherwise the first event that cannot be printed
    decides the exception: [KeyError] for ['type'] when it has no
    ['type'], [ValueError] when its kind is a number that is not written
    out, and then for the start time and after it the end time
    [ValueError] for a string, [TypeError] for [None] and
    [OverflowError] for a number that is not rendered. *)
Theorem detailed_listing_outcome (events : list event) :
  (is_Ok (display_detailed_events events) ↔ Forall printable events)
  ∧ ∀ events1 ev events2,
      events = events1 ++ ev :: events2 →
      Forall printable events1 →
      (ev !! "type" = None →
       display_detailed_events events = Raise (KeyError (VStr "type")))
      ∧ ∀ k, ev !! "type" = Some k →
          (shows k = false →
           display_detailed_events events = Raise ValueError)
          ∧ (shows k = true →
             ((∃ s, get ev "start_time" (VNum int_zero) = VStr s) →
              display_detailed_events events = Raise ValueError)
             ∧ (get ev "start_time" (VNum int_zero) = VNone →
                display_detailed_events events = Raise TypeError)
             ∧ ∀ a, get ev "start_time" (VNum int_zero) = VNum a →
                 (num_renders a = false →
                  display_detailed_events events = Raise OverflowError)
                 ∧ (num_renders a = true →
                    ((∃ s, get ev "end_time" (VNum int_zero) = VStr s) →
                     display_detailed_events events = Raise ValueError)
                    ∧ (get ev "end_time" (VNum int_zero) = VNone →
                       display_detailed_events events = Raise TypeError)
                    ∧ ∀ b, get ev "end_time" (VNum int_zero) = VNum b →
                        num_renders b = false →
                        display_detailed_events events
                        = Raise OverflowError)).
Proof.
  split.
  - unfold display_detailed_events. rewrite mapM_Ok.
    apply Forall_proper; [|done]. intros ev. apply detail_row_of_Ok.
  - intros events1 ev events2 -> Hgood.
    assert (Hfirst : ∀ e, detail_row_of ev = Raise e →
              display_detailed_events (events1 ++ ev :: events2) = Raise e).
    { intros e He. apply mapM_Raise; [|done].
      eapply Forall_impl; [done|]. intros ev'. apply detail_row_of_Ok. }
    pose proof (detail_row_of_cases ev) as Hcases.
    split.
    + intros Hk. apply Hfirst. by rewrite Hcases, Hk.
    + intros k Hk. rewrite Hk in Hcases. split.
      * intros Hshow. apply Hfirst. by rewrite Hcases, Hshow.
      * intros Hshow. rewrite Hshow in Hcases. split_and!.
        -- intros [s Hs]. apply Hfirst. by rewrite Hcases, Hs.
        -- intros Hs. apply Hfirst. by rewrite Hcases, Hs.
        -- intros a Ha. rewrite Ha in Hcases. split.
           ++ intros Hra. apply Hfirst. by rewrite Hcases, Hra.
           ++ intros Hra. rewrite Hra in Hcases. split_and!.
              ** intros [s Hs]. apply Hfirst. by rewrite Hcases, Hs.
              ** intros Hs. apply Hfirst. by rewrite Hcases, Hs.
              ** intros b Hb Hrb. apply Hfirst. by rewrite Hcases, Hb, Hrb.
Qed.

(** ** Setting up the directories *)

Lemma mkdir_exist_ok_spec (d : string) (fs fs' : gmap string node) r :
  mkdir_exist_ok d fs = (r, fs') →
  (∀ p n, fs !! p = Some n → fs' !! p = Some n)
  ∧ (∀ p, p ≠ d → fs' !! p = fs !! p)
  ∧ (∀ p, fs' !! p = Some File → fs !! p = Some File)
  ∧ (r = Ok () → fs' !! d = Some Dir)
  ∧ (∀ e, r = Raise e →
          e = OtherError "FileExistsError" ∧ fs !! d = Some File ∧ fs' = fs).
Proof.
  unfold mkdir_exist_ok. destruct (fs !! d) as [[]|] eqn:Hd; intros [= <- <-].
  - split_and!; try done. by intros e [= <-].
  - by split_and!.
  - split_and!; try done.
    + intros p n Hp. rewrite lookup_insert_ne; [done|]. intros ->. congruence.
    + intros p Hp. by rewrite lookup_insert_ne.
    + intros p. destruct (decide (d = p)) as [<-|Hne].
      * by rewrite lookup_insert_eq.
      * by rewrite lookup_insert_ne.
    + intros _. by rewrite lookup_insert_eq.
Qed.

Lemma mkdir_each_spec (dirs : list string) : ∀ (fs fs' : gmap string node) r,
  mkdir_each dirs fs = (r, fs') →
  (∀ p n, fs !! p = Some n → fs' !! p = Some n)
  ∧ (∀ p, p ∉ dirs → fs' !! p = fs !! p)
  ∧ (∀ p, fs' !! p = Some File → fs !! p = Some File).
Proof.
  induction dirs as [|d dirs IH]; intros fs fs' r; simpl.
  - by intros [= <- <-].
  - destruct (mkdir_exist_ok d fs) as [[[]|e] fs1] eqn:Hd.
    + destruct (mkdir_exist_ok_spec _ _ _ _ Hd) as (Hkeep & Hframe & Hfile & _).
      intros (Hkeep' & Hframe' & Hfile')%IH. split; [|split].
      * intros p n Hp. by apply Hkeep', Hkeep.
      * intros p [Hpd Hp]%not_elem_of_cons. rewrite Hframe' by done.
        by apply Hframe.
      * intros p Hp. by apply Hfile, Hfile'.
    + destruct (mkdir_exist_ok_spec _ _ _ _ Hd) as (_ & _ & _ & _ & Hraise).
      destruct (Hraise e eq_refl) as (_ & _ & ->). by intros [= <- <-].
Qed.

Lemma mkdir_each_Ok (dirs : list string) : ∀ fs : gmap string node,
  (∀ d, d ∈ dirs → fs !! d ≠ Some File) →
  ∃ fs', mkdir_each dirs fs = (Ok (), fs')
         ∧ ∀ d, d ∈ dirs → fs' !! d = Some Dir.
Proof.
  induction dirs as [|d dirs IH]; intros fs Hfree; simpl.
  - exists fs. split; [done|]. by intros d ?%elem_of_nil.
  - destruct (mkdir_exist_ok d fs) as [[[]|e] fs1] eqn:Hd.
    + destruct (mkdir_exist_ok_spec _ _ _ _ Hd) as (_ & _ & Hfile & Hdir & _).
      destruct (IH fs1) as (fs' & Heach & Hdirs).
      { intros d' Hd' Hf. apply (Hfree d'); [by right|]. by apply Hfile. }
      exists fs'. split; [done|].
      intros d' [->|Hd']%elem_of_cons; [|by apply Hdirs].
      destruct (mkdir_each_spec _ _ _ _ Heach) as (Hkeep & _).
      by apply Hkeep, Hdir.
    + destruct (mkdir_exist_ok_spec _ _ _ _ Hd) as (_ & _ & _ & _ & Hraise).
      destruct (Hraise e eq_refl) as (_ & Hf & _).
      exfalso. apply (Hfree d); [by left|done].
Qed.

Lemma mkdir_each_Raise (dirs : list string) :
  ∀ (fs fs' : gmap string node) e,
  mkdir_each dirs fs = (Raise e, fs') →
  e = OtherError "FileExistsError"
  ∧ ∃ before d after,
      dirs = before ++ d :: after
      ∧ fs !! d = Some File
      ∧ (∀ b, b ∈ before → fs !! b ≠ Some File ∧ fs' !! b = Some Dir).
Proof.
  induction dirs as [|d dirs IH]; intros fs fs' e; simpl; [done|].
  destruct (mkdir_exist_ok d fs) as [[[]|e1] fs1] eqn:Hd.
  - destruct (mkdir_exist_ok_spec _ _ _ _ Hd) as (_ & _ & Hfile & Hdir & _).
    intros Heach. destruct (IH _ _ _ Heach) as (-> & before & d' & after
                                                 & -> & Hd' & Hbefore).
    split; [done|]. exists (d :: before), d', after.
    split; [done|]. split; [by apply Hfile|].
    destruct (mkdir_each_spec _ _ _ _ Heach) as (Hkeep & _).
    intros b [->|Hb]%elem_of_cons.
    + split; [|by apply Hkeep, Hdir].
      intros Hf. specialize (Hdir eq_refl).
      unfold mkdir_exist_ok in Hd. rewrite Hf in Hd. done.
    + destruct (Hbefore b Hb) as [Hnf Hdirb]. split; [|done].
      intros Hf. apply Hnf.
      by destruct (mkdir_exist_ok_spec _ _ _ _ Hd) as (Hk & _); apply Hk.
  - destruct (mkdir_exist_ok_spec _ _ _ _ Hd) as (_ & _ & _ & _ & Hraise).
    destruct (Hraise e1 eq_refl) as (-> & Hf & ->). intros [= <- <-].
    split; [done|]. exists [], d, dirs. split; [done|]. split; [done|].
    by intros b ?%elem_of_nil.
Qed.

Lemma mkdir_each_Ok_inv (dirs : list string) :
  ∀ (fs fs' : gmap string node),
  mkdir_each dirs fs = (Ok (), fs') →
  ∀ d, d ∈ dirs → fs !! d ≠ Some File.
Proof.
  induction dirs as [|d dirs IH]; intros fs fs'; simpl.
  - by intros _ d ?%elem_of_nil.
  - destruct (mkdir_exist_ok d fs) as [[[]|e] fs1] eqn:Hd; [|done].
    intros Heach d' [->|Hd']%elem_of_cons Hf.
    + unfold mkdir_exist_ok in Hd. by rewrite Hf in Hd.
    + apply (IH _ _ Heach d' Hd').
      by destruct (mkdir_exist_ok_spec _ _ _ _ Hd) as (Hk & _); apply Hk.
Qed.

(** X1: when none of the four names is an existing file,
    [setup_directories] succeeds, the four names are directories
    afterwards, every other name is as before, and a second call changes
    nothing. *)
Theorem setup_directories_creates (fs : gmap string node) :
  (∀ d, d ∈ directories → fs !! d ≠ Some File) →
  ∃ fs',
    setup_directories fs = (Ok (), fs')
    ∧ (∀ d, d ∈ directories → fs' !! d = Some Dir)
    ∧ (∀ p, p ∉ directories → fs' !! p = fs !! p)
    ∧ (∀ p n, fs !! p = Some n → fs' !! p = Some n)
    ∧ setup_directories fs' = (Ok (), fs').
Proof.
  intros Hfree. unfold setup_directories.
  destruct (mkdir_each_Ok directories fs Hfree) as (fs' & Heach & Hdirs).
  destruct (mkdir_each_spec _ _ _ _ Heach) as (Hkeep & Hframe & _).
  exists fs'. repeat (split; [done|]).
  destruct (mkdir_each_Ok directories fs') as (fs2 & Heach2 & _).
  { intros d Hd. by rewrite (Hdirs d Hd). }
  rewrite Heach2. f_equal.
  destruct (mkdir_each_spec _ _ _ _ Heach2) as (Hkeep2 & Hframe2 & _).
  apply map_eq. intros p. destruct (decide (p ∈ directories)) as [Hp|Hp].
  - rewrite (Hdirs p Hp). by apply Hkeep2, Hdirs.
  - by apply Hframe2.
Qed.

(** The loop up to a name that is an existing file. *)
Lemma mkdir_each_blocked (before : list string) :
  ∀ (fs : gmap string node) (d : string) (after : list string),
  fs !! d = Some File →
  (∀ b, b ∈ before → fs !! b ≠ Some File) →
  ∃ fs',
    mkdir_each (before ++ d :: after) fs
    = (Raise (OtherError "FileExistsError"), fs')
    ∧ (∀ b, b ∈ before → fs' !! b = Some Dir)
    ∧ (∀ p, p ∉ before → fs' !! p = fs !! p)
    ∧ (∀ p n, fs !! p = Some n → fs' !! p = Some n).
Proof.
  induction before as [|b before IH]; intros fs d after Hd Hfree.
  - exists fs. simpl. unfold mkdir_exist_ok. rewrite Hd.
    split_and!; [done| |done|done]. by intros b ?%elem_of_nil.
  - cbn [app mkdir_each].
    destruct (mkdir_exist_ok b fs) as [[[]|e] fs1] eqn:Hb.
    + destruct (mkdir_exist_ok_spec _ _ _ _ Hb)
        as (Hkeep & Hframe & Hfile & Hdir & _).
      destruct (IH fs1 d after) as (fs' & Hrun & Hdirs & Hrest & Hkeep').
      { by apply Hkeep. }
      { intros b' Hb' Hf. apply (Hfree b'); [by right|]. by apply Hfile. }
      exists fs'. split_and!; [done| | |].
      * intros b' [->|Hb']%elem_of_cons.
        -- by apply Hkeep', (Hdir eq_refl).
        -- by apply Hdirs.
      * intros p [Hp1 Hp2]%not_elem_of_cons.
        rewrite (Hrest p Hp2). by apply Hframe.
      * intros p n Hp. by apply Hkeep', Hkeep.
    + exfalso.
      destruct (mkdir_exist_ok_spec _ _ _ _ Hb) as (_ & _ & _ & _ & Hr).
      destruct (Hr e eq_refl) as (_ & Hf & _).
      apply (Hfree b); [by left|done].
Qed.

(** X2: when one of the four names is an existing file,
    [setup_directories] raises [FileExistsError] at the first such name:
    the names before it have been made directories all the same, every
    other name, those after it among them, is as before, and no existing
    entry has been removed or changed. *)
Theorem setup_directories_failure (fs : gmap string node)
    (before after : list string) (d : string) :
  directories = before ++ d :: after →
  fs !! d = Some File →
  (∀ b, b ∈ before → fs !! b ≠ Some File) →
  ∃ fs',
    setup_directories fs = (Raise (OtherError "FileExistsError"), fs')
    ∧ (∀ b, b ∈ before → fs' !! b = Some Dir)
    ∧ (∀ p, p ∉ before → fs' !! p = fs !! p)
    ∧ (∀ p n, fs !! p = Some n → fs' !! p = Some n).
Proof.
  intros Hdirs Hd Hfree. unfold setup_directories. rewrite Hdirs.
  by apply mkdir_each_blocked.
Qed.

(** ** Asking for the video path *)

Lemma validate_input_file_true (pf : Platform) (p : string) :
  validate_input_file pf p = true ↔
  os_path_exists pf p = true
  ∧ str_lower pf (path_suffix pf p) ∈ supported_formats.
Proof.
  unfold validate_input_file. destruct (os_path_exists pf p); simpl.
  - case_decide; split; try done. by intros [_ ?].
  - split; [done|]. by intros [? _].
Qed.

Lemma prompt_outcome_more (pf : Platform) (pre inputs : list string) r rest :
  prompt_outcome pf inputs r rest → prompt_outcome pf (pre ++ inputs) r rest.
Proof.
  destruct r as [[p|]|e]; simpl; [| |done].
  - intros (pre' & line & -> & Hp & Hv). exists (pre ++ pre'), line.
    by rewrite <- app_assoc.
  - intros (pre' & line & retry & -> & Hv & Hr).
    exists (pre ++ pre'), line, retry. by rewrite <- app_assoc.
Qed.

Lemma prompt_loop_outcome (pf : Platform) (inputs : list string) :
  ∀ r rest, prompt_loop pf inputs = (r, rest) →
            prompt_outcome pf inputs r rest.
Proof.
  remember (length inputs) as n eqn:Hn. revert inputs Hn.
  induction n as [n IH] using lt_wf_ind. intros inputs Hn r rest.
  destruct inputs as [|line [|retry rest']]; simpl.
  - by intros [= <- <-].
  - destruct (validate_input_file pf (clean_path pf line)) eqn:Hv.
    + intros [= <- <-]. by exists [], line.
    + by intros [= <- <-].
  - destruct (validate_input_file pf (clean_path pf line)) eqn:Hv.
    + intros [= <- <-]. by exists [], line.
    + case_decide as Hretry.
      * intros Hloop. apply (prompt_outcome_more pf [line; retry]).
        eapply IH; [|done..]. subst n. simpl. lia.
      * intros [= <- <-]. by exists [], line, retry.
Qed.

Lemma default_loop_outcome (pf : Platform) (paths inputs : list string) :
  ∀ r rest, default_loop pf paths inputs = (r, rest) →
    (∃ before d after answer,
        paths = before ++ d :: after
        ∧ Forall (λ b, os_path_exists pf b = false) before
        ∧ os_path_exists pf d = true
        ∧ inputs = answer :: rest
        ∧ str_lower pf answer ∈ ["y"; "yes"; ""]
        ∧ r = Ok (Some d))
    ∨ prompt_outcome pf inputs r rest.
Proof.
  induction paths as [|d paths IH]; intros r rest; simpl.
  - intros Hloop. right. by apply prompt_loop_outcome.
  - destruct (os_path_exists pf d) eqn:Hd.
    + destruct inputs as [|answer inputs].
      * intros [= <- <-]. by right.
      * case_decide as Hans.
        -- intros [= <- <-]. left. exists [], d, paths, answer.
           by split_and!.
        -- intros Hloop. right.
           apply (prompt_outcome_more pf [answer]).
           by apply prompt_loop_outcome.
    + intros [(before & d' & after & answer & -> & Hbefore & Hrest)|Hout]%IH.
      * left. exists (d :: before), d', after, answer.
        split; [done|]. split; [by constructor|done].
      * by right.
Qed.

(** X3: a path returned by [get_video_input] exists.  It is either a
    default path, returned on the single answer y, yes or the empty line
    without a look at its extension, or the cleaned text of a line that
    passed [validate_input_file]. *)
Theorem get_video_input_returns (pf : Platform) (inputs rest : list string)
    (p : string) :
  get_video_input pf inputs = (Ok (Some p), rest) →
  os_path_exists pf p = true
  ∧ ((p ∈ default_paths
      ∧ ∃ answer,
          inputs = answer :: rest
          ∧ str_lower pf answer ∈ ["y"; "yes"; ""])
     ∨ (∃ pre line,
          inputs = pre ++ line :: rest
          ∧ p = clean_path pf line
          ∧ validate_input_file pf p = true)).
Proof.
  unfold get_video_input.
  intros [(before & d & after & answer & Hpaths & _ & Hd & -> & Hans & [= ->])
         |(pre & line & -> & -> & Hv)]%default_loop_outcome.
  - split; [done|]. left. split; [|by exists answer].
    rewrite Hpaths. apply elem_of_app. right. by left.
  - split; [by apply validate_input_file_true in Hv as [? _]|].
    right. by exists pre, line.
Qed.

(** X4: [get_video_input] returns [None] only after a line whose path
    failed [validate_input_file], followed by an answer to the retry
    question that is neither y nor yes. *)
Theorem get_video_input_gives_up (pf : Platform) (inputs rest : list string) :
  get_video_input pf inputs = (Ok None, rest) →
  ∃ pre line retry,
    inputs = pre ++ line :: retry :: rest
    ∧ validate_input_file pf (clean_path pf line) = false
    ∧ str_lower pf retry ∉ ["y"; "yes"].
Proof.
  unfold get_video_input.
  intros [(before & d & after & answer & _ & _ & _ & _ & _ & [=])
         |Hout]%default_loop_outcome.
  exact Hout.
Qed.

(** X5: [get_video_input] reads at least one line, so on an exhausted
    input it raises [EOFError]; [EOFError] is the only exception it
    raises, and only once every line has been read; what it leaves unread
    is a proper tail of the input otherwise. *)
Theorem get_video_input_reads (pf : Platform) (inputs : list string) :
  get_video_input pf [] = (Raise EOFError, [])
  ∧ ∀ r rest,
      get_video_input pf inputs = (r, rest) →
      match r with
      | Raise e => e = EOFError ∧ rest = []
      | Ok _ => ∃ read, read ≠ [] ∧ inputs = read ++ rest
      end.
Proof.
  unfold get_video_input. split.
  - generalize default_paths as paths.
    induction paths as [|d paths IH]; simpl; [done|].
    by destruct (os_path_exists pf d).
  - intros r rest
      [(before & d & after & answer & _ & _ & _ & -> & _ & ->)
      |Hout]%default_loop_outcome.
    + by exists [answer].
    + destruct r as [[p|]|e]; simpl in Hout; [| |done].
      * destruct Hout as (pre & line & -> & _). exists (pre ++ [line]).
        split; [by destruct pre|]. by rewrite <- app_assoc.
      * destruct Hout as (pre & line & retry & -> & _).
        exists (pre ++ [line; retry]).
        split; [by destruct pre|]. by rewrite <- app_assoc.
Qed.

Lemma default_loop_first_existing (pf : Platform) (paths : list string)
    (before after : list string) (d answer : string) (rest : list string) :
  paths = before ++ d :: after →
  Forall (λ b, os_path_exists pf b = false) before →
  os_path_exists pf d = true →
  default_loop pf paths (answer :: rest)
  = if decide (str_lower pf answer ∈ ["y"; "yes"; ""])
    then (Ok (Some d), rest)
    else prompt_loop pf rest.
Proof.
  intros -> Hbefore Hd. induction Hbefore as [|b before Hb _ IH]; simpl.
  - by rewrite Hd.
  - by rewrite Hb.
Qed.

(** X6: only the first default path that exists is offered.  On the
    answer y, yes or the empty line it is returned; on any other answer
    the function goes on to ask for a path, and no later default path is
    offered. *)
Theorem get_video_input_default (pf : Platform)
    (before after : list string) (d answer : string) (rest : list string) :
  default_paths = before ++ d :: after →
  Forall (λ b, os_path_exists pf b = false) before →
  os_path_exists pf d = true →
  get_video_input pf (answer :: rest)
  = if decide (str_lower pf answer ∈ ["y"; "yes"; ""])
    then (Ok (Some d), rest)
    else prompt_loop pf rest.
Proof. apply default_loop_first_existing. Qed.

(** ** More on the orchestration *)

(** X7: [analyze_video] never raises.  It returns data exactly when the
    engine returns a non-empty event list and the selection does not
    raise; the data then hold that list and that selection, and the
    selection is asked for once, after the analysis.  In every other case
    it returns [None]. *)
Theorem analyze_video_outcome (analyzer : Analyzer) (tr : list call) :
  ∃ r tr',
    analyze_video analyzer tr = (Ok r, tr')
    ∧ match r with
      | Some data =>
          events_of data ≠ []
          ∧ analyzer_analyze_video analyzer = Ok (Some (events_of data))
          ∧ analyzer_select_robot_actions analyzer (events_of data)
            = Ok (robot_selected_events data)
          ∧ tr' = tr ++ [CallAnalyzeVideo; CallSelectRobotActions]
      | None =>
          (∀ ev evs selected,
             analyzer_analyze_video analyzer = Ok (Some (ev :: evs)) →
             analyzer_select_robot_actions analyzer (ev :: evs)
             ≠ Ok selected)
      end.
Proof.
  unfold analyze_video, try_except, perform, mbind, mret, IO_bind, IO_ret.
  destruct (analyzer_analyze_video analyzer) as [[[|ev evs]|]|e] eqn:Han;
    simpl; try by (do 2 eexists; split; [done|]).
  destruct (analyzer_select_robot_actions analyzer (ev :: evs))
    as [selected|e] eqn:Hsel; simpl.
  - do 2 eexists. split; [done|]. simpl. split_and!; try done.
    by rewrite <- app_assoc.
  - do 2 eexists. split; [done|]. simpl.
    intros ev' evs' selected [= -> ->]. by rewrite Hsel.
Qed.

(** X8: saving does not decide the outcome: with any other outcome of
    [save_analysis_results], also a failed one, [main] makes the same
    calls and returns or raises the same, so the exit status is the
    same. *)
Theorem main_ignores_save (w : World)
    (save : analysis_data → string → option string) :
  main (with_save save w) [] = main w []
  ∧ exit_status (with_save save w) = exit_status w.
Proof.
  assert (Hmain : main (with_save save w) [] = main w []).
  { unfold_main. unfold with_save. simpl.
    destruct (world_setup_directories w) as [[]|]; simpl; [|done].
    by destruct (world_get_video_input w) as [[[|c p]|]|]. }
  split; [done|]. unfold exit_status. by rewrite Hmain.
Qed.

(** The outcome of [main] once the run has reached the two tables. *)
Lemma main_from_tables (w : World) path analyzer ev evs selected :
  reaches_tables w path analyzer ev evs selected →
  main w []
  = let tr := [CallSetupDirectories; CallGetVideoInput; CallInit path;
               CallAnalyzeVideo; CallSelectRobotActions] in
    let data := {| events_of := ev :: evs;
                   robot_selected_events := selected |} in
    match display_events_summary (ev :: evs) with
    | Raise e => (Raise e, tr)
    | Ok _ =>
        match display_detailed_events (ev :: evs) with
        | Raise e => (Raise e, tr)
        | Ok _ =>
            match selected with
            | [] => (Ok true, tr ++ [CallSaveResults])
            | _ :: _ =>
                match analyzer_generate_robot_script analyzer data with
                | Ok _ =>
                    (Ok true,
                     tr ++ [CallGenerateRobotScript; CallSaveResults])
                | Raise e => (Raise e, tr ++ [CallGenerateRobotScript])
                end
            end
        end
    end.
Proof.
  intros (Hsetup & Hin & Hpath & Hinit & Han & Hsel).
  unfold_run. step_run.
  destruct path as [|c path]; [done|]. simpl. step_run.
  destruct (display_events_summary (ev :: evs)); simpl; [|done].
  destruct (display_detailed_events (ev :: evs)); simpl; [|done].
  destruct selected as [|s sel]; simpl; [done|].
  by destruct (analyzer_generate_robot_script analyzer _).
Qed.

(** X9: the script generator is called outside any [try]: when it
    raises, the exception leaves [main], the results are not saved, and
    the process exits with status 1. *)
Theorem generator_failure_loses_results (w : World) path analyzer ev evs
    s selected e :
  reaches_tables w path analyzer ev evs (s :: selected) →
  is_Ok (display_events_summary (ev :: evs)) →
  is_Ok (display_detailed_events (ev :: evs)) →
  analyzer_generate_robot_script analyzer
    {| events_of := ev :: evs; robot_selected_events := s :: selected |}
  = Raise e →
  (main w []).1 = Raise e
  ∧ (CallGenerateRobotScript ∈ calls_of w)
  ∧ (CallSaveResults ∉ calls_of w)
  ∧ exit_status w = 1.
Proof.
  intros Hreach [r1 Hsum] [r2 Hdet] Hgen.
  unfold exit_status, calls_of.
  rewrite (main_from_tables w path analyzer ev evs (s :: selected) Hreach).
  simpl. rewrite Hsum, Hdet, Hgen. simpl. split_and!; try done.
  - apply (bool_decide_unpack _). by vm_compute.
  - apply (bool_decide_unpack _). by vm_compute.
Qed.

(** X10: an exception of either table leaves [main]: the run stops
    after the selection, neither the script generator nor the saving is
    called, and the process exits with status 1. *)
Theorem table_failure_aborts (w : World) path analyzer ev evs selected e :
  reaches_tables w path analyzer ev evs selected →
  display_events_summary (ev :: evs) = Raise e
  ∨ (is_Ok (display_events_summary (ev :: evs))
     ∧ display_detailed_events (ev :: evs) = Raise e) →
  (main w []).1 = Raise e
  ∧ calls_of w = [CallSetupDirectories; CallGetVideoInput; CallInit path;
                  CallAnalyzeVideo; CallSelectRobotActions]
  ∧ exit_status w = 1.
Proof.
  intros Hreach Hfail. unfold exit_status, calls_of.
  rewrite (main_from_tables w path analyzer ev evs selected Hreach). simpl.
  destruct Hfail as [Hsum|[[r1 Hsum] Hdet]].
  - by rewrite Hsum.
  - by rewrite Hsum, Hdet.
Qed.

(** Either the run reaches the two tables, or [main] ends before them
    without returning [True]. *)
Lemma main_before_tables (w : World) :
  (∃ path analyzer ev evs selected,
     reaches_tables w path analyzer ev evs selected)
  ∨ (∃ r tr path,
       main w [] = (r, tr)
       ∧ r ≠ Ok true
       ∧ tr `prefix_of` [CallSetupDirectories; CallGetVideoInput;
                         CallInit path; CallAnalyzeVideo;
                         CallSelectRobotActions]).
Proof.
  unfold reaches_tables. unfold_run.
  destruct (world_setup_directories w) as [[]|e0] eqn:Hsetup; simpl;
    [|right; eexists _, _, ""; split_and!; [done..|by eexists]].
  destruct (world_get_video_input w) as [[[|c p]|]|e1] eqn:Hin; simpl;
    try (right; eexists _, _, ""; split_and!; [done..|by eexists]).
  destruct (world_WorkerAnalysisSystem w (String c p)) as [analyzer|e2]
    eqn:Hinit; simpl;
    [|right; eexists _, _, _; split_and!; [done..|by eexists]].
  destruct (analyzer_analyze_video analyzer) as [[[|ev evs]|]|e3] eqn:Han;
    simpl; try (right; eexists _, _, _; split_and!; [done..|by eexists]).
  destruct (analyzer_select_robot_actions analyzer (ev :: evs))
    as [selected|e4] eqn:Hsel; simpl;
    [|right; eexists _, _, _; split_and!; [done..|by eexists]].
  left. by exists (String c p), analyzer, ev, evs, selected.
Qed.


(** X12: the script generator is called only in a run that has reached
    the tables with a non-empty selection and has printed both tables. *)
Theorem generator_called_only_on_selection (w : World) :
  CallGenerateRobotScript ∈ calls_of w →
  ∃ path analyzer ev evs s selected,
    reaches_tables w path analyzer ev evs (s :: selected)
    ∧ is_Ok (display_events_summary (ev :: evs))
    ∧ is_Ok (display_detailed_events (ev :: evs)).
Proof.
  unfold calls_of.
  destruct (main_before_tables w)
    as [(path & analyzer & ev & evs & selected & Hreach)
       |(r & tr & path & Hmain & Hr & [k Hk])].
  - rewrite (main_from_tables w path analyzer ev evs selected Hreach). simpl.
    destruct (display_events_summary (ev :: evs)) as [r1|] eqn:Hsum; simpl;
      [|intros Hin; exfalso; revert Hin;
        apply (bool_decide_unpack _); by vm_compute].
    destruct (display_detailed_events (ev :: evs)) as [r2|] eqn:Hdet; simpl;
      [|intros Hin; exfalso; revert Hin;
        apply (bool_decide_unpack _); by vm_compute].
    destruct selected as [|s sel]; simpl.
    { intros Hin; exfalso; revert Hin.
      apply (bool_decide_unpack _); by vm_compute. }
    intros _. exists path, analyzer, ev, evs, s, sel.
    split; [done|]. split; by eexists.
  - rewrite Hmain. simpl. intros Hin. exfalso.
    assert (Hin' : CallGenerateRobotScript ∈ tr ++ k)
      by (apply elem_of_app; by left).
    rewrite <- Hk in Hin'.
    repeat (apply elem_of_cons in Hin' as [?|Hin']; [done|]).
    by apply elem_of_nil in Hin'.
Qed.

(** ** Labels *)

(** X19: the banner of [display_welcome] and the detailed listing agree:
    each banner line is made of the labels that the listing prints for
    its kinds, and the kinds of the banner are the kinds of the taxonomy
    without [meta_action], each one once. *)
Theorem welcome_matches_listing :
  welcome_entries = welcome_line <$> welcome_kinds
  ∧ mjoin welcome_kinds ≡ₚ filter (λ k, k ≠ "meta_action") known_kinds
  ∧ NoDup (mjoin welcome_kinds).
Proof.
  split; [by vm_compute|]. split.
  - apply (bool_decide_unpack _). by vm_compute.
  - apply (bool_decide_unpack _). by vm_compute.
Qed.

Lemma listing_label_unknown (s : string) :
  s ∉ known_kinds →
  listing_label s = "[1] " +:+ s.
Proof.
  intros Hs. destruct (unknown_kind_lookups s Hs) as [Hn Hd].
  unfold listing_label, number_of, display_name_of, lookup_val.
  rewrite Hn, Hd. by vm_compute.
Qed.

Ltac known_kind_cases H :=
  unfold known_kinds in H; simpl in H;
  repeat (apply elem_of_cons in H as [->|H]);
  [..|by apply elem_of_nil in H].

(** X20: the label of the detailed listing tells the kinds apart, with
    one exception: two kind strings get the same label exactly when they
    are equal or when one is [meta_action] and the other one is the raw
    string [Meta action]. *)
Theorem label_identifies_kind (s t : string) :
  listing_label s = listing_label t ↔
  s = t
  ∨ (s = "meta_action" ∧ t = "Meta action")
  ∨ (s = "Meta action" ∧ t = "meta_action").
Proof.
  split.
  - destruct (decide (s ∈ known_kinds)) as [Hs|Hs];
      destruct (decide (t ∈ known_kinds)) as [Ht|Ht].
    + known_kind_cases Hs; known_kind_cases Ht;
        first [left; reflexivity | vm_compute; discriminate].
    + rewrite (listing_label_unknown t Ht).
      known_kind_cases Hs; vm_compute; intros [= <-]; auto.
    + rewrite (listing_label_unknown s Hs).
      known_kind_cases Ht; vm_compute; intros [= ->]; auto.
    + rewrite (listing_label_unknown s Hs), (listing_label_unknown t Ht).
      vm_compute. intros [= ->]. by left.
  - intros [->|[[-> ->]|[-> ->]]]; [done|by vm_compute..].
Qed.

(** ** An interactive run *)

Ltac init_membership Hin :=
  repeat (apply elem_of_cons in Hin as [Hin|Hin];
          [try discriminate Hin|]);
  try (by apply elem_of_nil in Hin);
  try (injection Hin as ->).

(** The engine is constructed on the path that the video input returned,
    and only after the directories were set up. *)
Lemma main_init_path (w : World) (p : string) :
  CallInit p ∈ calls_of w →
  world_setup_directories w = Ok ()
  ∧ world_get_video_input w = Ok (Some p).
Proof.
  unfold_run.
  destruct (world_setup_directories w) as [[]|e0]; simpl;
    [|by intros H; init_membership H].
  destruct (world_get_video_input w) as [[[|c q]|]|e1]; simpl;
    try by (intros H; init_membership H).
  destruct (world_WorkerAnalysisSystem w (String c q)) as [analyzer|e2];
    simpl; [|by intros H; init_membership H].
  destruct (analyzer_analyze_video analyzer) as [[[|ev evs]|]|e3]; simpl;
    try by (intros H; init_membership H).
  destruct (analyzer_select_robot_actions analyzer (ev :: evs))
    as [selected|e4]; simpl; [|by intros H; init_membership H].
  destruct (display_events_summary (ev :: evs)); simpl;
    [|by intros H; init_membership H].
  destruct (display_detailed_events (ev :: evs)); simpl;
    [|by intros H; init_membership H].
  destruct selected as [|s sel]; simpl; [by intros H; init_membership H|].
  destruct (analyzer_generate_robot_script analyzer _); simpl;
    by intros H; init_membership H.
Qed.

(** X21: in an interactive run the analysis engine is constructed only
    on the path that [get_video_input] returned, so only on a path that
    exists and that is a default path or passed [validate_input_file];
    when [get_video_input] returns [None], the engine is not constructed
    and the process exits with status 1. *)
Theorem engine_gets_existing_path (pf : Platform) (fs : gmap string node)
    (inputs : list string) (w : World) :
  (∀ p,
     CallInit p ∈ calls_of (interactive_world pf fs inputs w) →
     (get_video_input pf inputs).1 = Ok (Some p)
     ∧ os_path_exists pf p = true
     ∧ (p ∈ default_paths ∨ validate_input_file pf p = true))
  ∧ ((get_video_input pf inputs).1 = Ok None →
     exit_status (interactive_world pf fs inputs w) = 1
     ∧ ∀ p, CallInit p ∉ calls_of (interactive_world pf fs inputs w)).
Proof.
  split.
  - intros p [_ Hin]%main_init_path. simpl in Hin. split; [done|].
    destruct (get_video_input pf inputs) as [r rest] eqn:Hget.
    simpl in Hin. subst r.
    destruct (default_loop_outcome pf default_paths inputs _ _ Hget)
      as [(before & d & after & answer & Hpaths & _ & Hd & _ & _ & [= ->])
         |(pre & line & _ & -> & Hv)].
    + split; [done|]. left. rewrite Hpaths. apply elem_of_app. right.
      by left.
    + split; [|by right]. by apply validate_input_file_true in Hv as [? _].
  - intros Hnone. split.
    + unfold_main. simpl. rewrite Hnone.
      by destruct (setup_directories fs).1 as [[]|].
    + intros p [_ Hin]%main_init_path. simpl in Hin. congruence.
Qed.

(** X22: when one of the four directory names is an existing file, the
    run ends in [setup_directories] with [FileExistsError]: the video
    path is not asked for, nothing else is called, and the process exits
    with status 1. *)
Theorem blocked_directory_stops_run (pf : Platform) (fs : gmap string node)
    (inputs : list string) (w : World) (d : string) :
  d ∈ directories →
  fs !! d = Some File →
  main (interactive_world pf fs inputs w) []
  = (Raise (OtherError "FileExistsError"), [CallSetupDirectories])
  ∧ exit_status (interactive_world pf fs inputs w) = 1.
Proof.
  intros Hd Hfile.
  assert (Hsetup : (setup_directories fs).1
                   = Raise (OtherError "FileExistsError")).
  { unfold setup_directories.
    destruct (mkdir_each directories fs) as [[[]|e] fs'] eqn:Heach; simpl.
    - exfalso. by apply (mkdir_each_Ok_inv _ _ _ Heach d Hd).
    - by apply mkdir_each_Raise in Heach as [-> _]. }
  unfold_main. simpl. by rewrite Hsetup.
Qed.

End properties.

(* ================================================================== *)
(** * Sample runs *)
(* ================================================================== *)

(** The sample runs are on IEEE doubles, unless a run says otherwise. *)
#[global] Existing Instance float_numbers.

(** With doubles every sum is defined and rendered. *)
Lemma float_sum_from (l : list float) : ∀ acc : float,
  ∃ t, sum_from (N := float_numbers) acc l = Some t.
Proof.
  induction l as [|q l IH]; intros acc; simpl; [by eexists|]. apply IH.
Qed.

Lemma float_printable_sum (l : list float) :
  printable_sum (N := float_numbers) l.
Proof.
  destruct (float_sum_from l 0%float) as [t Ht]. by exists t.
Qed.

(** With [int] numbers every sum is defined. *)
Lemma int_sum_from (l : list Z) : ∀ acc : Z,
  is_Some (sum_from (N := int_numbers) acc l).
Proof.
  induction l as [|q l IH]; intros acc; simpl; [by eexists|]. apply IH.
Qed.

Lemma taxonomy_codes_and_labels_witness :
  "take_subsystem" = "take_subsystem"
  ∧ "picking_left" = "picking_left".
Proof.
  destruct taxonomy_codes_and_labels as (_ & _ & Hcode & Hname).
  split.
  - apply (Hcode "take_subsystem" "take_subsystem" 10); reflexivity.
  - apply (Hname "picking_left" "picking_left" "Picking left"); reflexivity.
Defined.

Lemma unknown_kind_fallback_witness :
  number_of (VStr "wave_hand") = 1
  ∧ display_name_of (VStr "wave_hand") = VStr "wave_hand"
  ∧ ∃ row,
      detail_row_of (mk_event "wave_hand" 1%float 2%float 1%float) = Ok row
      ∧ row_label row = Some "[1] wave_hand".
Proof.
  assert (Hs : "wave_hand" ∉ known_kinds)
    by (apply (bool_decide_unpack _); vm_compute; exact I).
  destruct (unknown_kind_fallback "wave_hand" Hs) as (Hn & Hd & Hrow).
  split; [exact Hn|]. split; [exact Hd|].
  destruct (Hrow (@mk_event float_numbers "wave_hand" 1%float 2%float 1%float)
              1%float 2%float)
    as (row & Hr & _ & Hl); [reflexivity..|].
  exists row. split; [exact Hr | exact Hl].
Defined.

Lemma select_filtering_witness :
  let e := {| kind := "take_screwdriver"; start_time := Q2Qc 2;
              end_time := Q2Qc 3.5 |} in
  (e ∈ select scenario_events default_policy
   ↔ kind e ∈ actionable_set default_policy)
  ∧ (e ∈ scenario_events).
Proof.
  intros e. split.
  - apply (select_filtering scenario_events default_policy e).
    apply (bool_decide_unpack _). vm_compute. exact I.
  - apply (select_filtering scenario_events default_policy e).
    apply (bool_decide_unpack _). vm_compute. exact I.
Defined.

Lemma select_preserves_order_witness :
  let a := {| kind := "picking_left"; start_time := Q2Qc 1;
              end_time := Q2Qc 1 |} in
  let b := {| kind := "picking_in_front"; start_time := Q2Qc 1;
              end_time := Q2Qc 2 |} in
  select [a; b] default_policy
  = select [a] default_policy ++ select [b] default_policy.
Proof.
  intros a b.
  apply (select_preserves_order [a; b] default_policy). reflexivity.
Defined.

Lemma event_duration_nonneg_witness :
  make_event ("take_subsystem", Q2Qc 3, Q2Qc 2) = Raise InvalidTimeRange
  ∧ (0 ≤ duration {| kind := "take_subsystem"; start_time := Q2Qc 2;
                     end_time := Q2Qc 3.5 |})%Qc.
Proof.
  split.
  - apply (event_duration_nonneg "take_subsystem" (Q2Qc 3) (Q2Qc 2)).
    reflexivity.
  - apply (event_duration_nonneg "take_subsystem" (Q2Qc 2) (Q2Qc 3.5)).
    reflexivity.
Defined.

Lemma script_monotonicity_witness :
  ∃ script : list Command,
    generate (select scenario_events default_policy) = Ok script
    ∧ Sorted Qcle (cmd_offset <$> script)
    ∧ head (cmd_offset <$> script) = Some 0%Qc.
Proof.
  destruct script_monotonicity as [Hgen _].
  destruct (Hgen scenario_events default_policy)
    as (first & script & _ & Hg & _ & Hs & Hh).
  - repeat constructor; by vm_compute.
  - by vm_compute.
  - exists script. split; [exact Hg|]. split; [exact Hs | exact Hh].
Defined.

Lemma empty_selection_is_not_a_failure_witness :
  let w := sample_world (Some "r1test.mp4")
             (Ok (sample_analyzer (Some observation_events) [])) in
  (main w []).1 = Ok true
  ∧ (CallGenerateRobotScript ∉ calls_of w)
  ∧ (CallSaveResults ∈ calls_of w)
  ∧ exit_status w = 0.
Proof.
  intros w.
  destruct empty_selection_is_not_a_failure as [_ Hmain].
  apply (Hmain w "r1test.mp4" (sample_analyzer (Some observation_events) [])
           (@mk_event float_numbers "consult_sheets" 0%float 2%float 2%float)
           [@mk_event float_numbers "turn_sheets" 2%float 3.5%float 1.5%float]).
  - reflexivity.
  - reflexivity.
  - discriminate.
  - reflexivity.
  - reflexivity.
  - reflexivity.
  - eexists. reflexivity.
  - eexists. reflexivity.
Defined.

Lemma exit_status_of_run_witness :
  let engine := sample_analyzer (Some observation_events) observation_events in
  exit_status (sample_world (Some "r1test.mp4") (Ok engine)) = 0
  ∧ exit_status (sample_world None (Ok engine)) = 1
  ∧ exit_status (sample_world (Some "r1test.mp4")
                   (Raise (OtherError "GEMINI_API_KEY is not set"))) = 1
  ∧ exit_status (sample_world (Some "r1test.mp4")
                   (Ok (sample_analyzer None []))) = 1
  ∧ exit_status (sample_world (Some "r1test.mp4")
                   (Ok (sample_analyzer (Some []) []))) = 1.
Proof.
  intros engine. split; [|split; [|split; [|split]]].
  - apply (exit_status_of_run (sample_world (Some "r1test.mp4") (Ok engine))).
    exists "r1test.mp4", engine,
      (@mk_event float_numbers "consult_sheets" 0%float 2%float 2%float),
      [@mk_event float_numbers "turn_sheets" 2%float 3.5%float 1.5%float],
      observation_events.
    split; [reflexivity|]. split; [reflexivity|]. split; [discriminate|].
    split; [reflexivity|]. split; [reflexivity|]. split; [reflexivity|].
    split; [eexists; reflexivity|].
    split; [eexists; reflexivity|].
    intros _. eexists. reflexivity.
  - apply (exit_status_of_run (sample_world None (Ok engine))).
    apply (no_video_path _ None); reflexivity.
  - apply (exit_status_of_run
             (sample_world (Some "r1test.mp4")
                (Raise (OtherError "GEMINI_API_KEY is not set")))).
    apply (initialization_raises _ "r1test.mp4"
             (OtherError "GEMINI_API_KEY is not set")); reflexivity.
  - apply (exit_status_of_run
             (sample_world (Some "r1test.mp4")
                (Ok (sample_analyzer None [])))).
    apply (analysis_returns_no_data _ "r1test.mp4" (sample_analyzer None []));
      [reflexivity..|]. intros tr. reflexivity.
  - apply (exit_status_of_run
             (sample_world (Some "r1test.mp4")
                (Ok (sample_analyzer (Some []) [])))).
    apply (event_list_empty _ "r1test.mp4" (sample_analyzer (Some []) []));
      reflexivity.
Defined.

(** The sums are those of doubles: after [1e16] the two durations [1.0]
    are lost to rounding, in the total and in the row of the kind. *)
Lemma summary_statistics_witness :
  let events :=
    [ mk_event "picking_left" 0%float 2%float 1e16%float;
      mk_event "assemble_system" 2%float 3%float 1%float;
      mk_event "picking_left" 3%float 4%float 1%float ] in
  ∃ report,
    display_events_summary events = Ok report
    ∧ report_n_events report = 3%nat
    ∧ report_total report = 1e16%float
    ∧ dict_get (VStr "picking_left") (report_rows report)
      = Some {| count := 2; total_duration := 1e16%float |}
    ∧ dict_get (VStr "turn_sheets") (report_rows report) = None.
Proof.
  intros events.
  destruct (summary_statistics events) as [Hok Hrep].
  destruct Hok as [report Hreport].
  - repeat constructor; by eexists.
  - repeat constructor; by eexists.
  - apply float_printable_sum.
  - intros k ev _ _. apply float_printable_sum.
  - exists report. split; [exact Hreport|].
    destruct (Hrep report Hreport) as (_ & Hn & Htot & _ & _ & Hrow & _).
    split; [exact Hn|]. split; [|split].
    + by injection Htot.
    + rewrite Hrow. reflexivity.
    + rewrite Hrow. reflexivity.
Defined.

(** An event with the bounds 1 and 6 and no duration counts with the
    duration 0; an event without bounds is listed from 0 to 0. *)
Lemma missing_fields_default_to_zero_witness :
  let ev : event :=
    <["type" := VStr "take_subsystem"]>
      (<["start_time" := VNum 1%float]> (<["end_time" := VNum 6%float]> ∅)) in
  let ev' : event :=
    <["type" := VStr "take_subsystem"]> (<["end_time" := VNum 6%float]> ∅) in
  (∃ report,
     display_events_summary [ev; ev] = Ok report
     ∧ report_total report = 0%float
     ∧ dict_get (VStr "take_subsystem") (report_rows report)
       = Some {| count := 2; total_duration := 0%float |})
  ∧ detail_row_of ev'
    = Ok {| row_number := 10; row_display_name := VStr "Take subsystem";
            row_start_time := 0%float; row_end_time := 6%float |}.
Proof.
  intros ev ev'.
  destruct missing_fields_default_to_zero
    as (_ & Hreport & _ & _ & Hstart & _).
  split.
  - destruct (Hreport [ev; ev]) as (report & Hrun & _ & Htot & Hrow).
    + repeat constructor.
    + repeat constructor; by eexists.
    + exists report. split; [exact Hrun|]. split; [exact Htot|].
      apply (Hrow ev (VStr "take_subsystem")); [|reflexivity].
      apply list_elem_of_here.
  - apply (Hstart ev' (VStr "take_subsystem") 6%float); reflexivity.
Defined.

Lemma setup_directories_creates_witness :
  ∃ fs',
    setup_directories {[ "logs" := Dir; "r1test.mp4" := File ]}
    = (Ok (), fs')
    ∧ fs' !! "robot_scripts" = Some Dir
    ∧ fs' !! "r1test.mp4" = Some File.
Proof.
  destruct (setup_directories_creates
              {[ "logs" := Dir; "r1test.mp4" := File ]})
    as (fs' & Hrun & Hdirs & _ & Hkeep & _).
  - intros d Hd.
    repeat (apply elem_of_cons in Hd as [->|Hd]; [by vm_compute|]).
    by apply elem_of_nil in Hd.
  - exists fs'. split; [exact Hrun|]. split.
    + apply Hdirs. apply (bool_decide_unpack _). by vm_compute.
    + apply Hkeep. reflexivity.
Defined.

Lemma setup_directories_failure_witness :
  ∃ fs',
    setup_directories {[ "logs" := File ]}
    = (Raise (OtherError "FileExistsError"), fs')
    ∧ fs' !! "results" = Some Dir
    ∧ fs' !! "logs" = Some File
    ∧ fs' !! "temp" = None.
Proof.
  destruct (setup_directories_failure {[ "logs" := File ]}
              ["results"] ["temp"; "robot_scripts"] "logs")
    as (fs' & Hrun & Hdirs & Hrest & Hkeep).
  - reflexivity.
  - reflexivity.
  - intros b ->%list_elem_of_singleton. by vm_compute.
  - exists fs'. split; [exact Hrun|]. split; [|split].
    + apply Hdirs. apply list_elem_of_here.
    + apply Hkeep. reflexivity.
    + rewrite Hrest; [reflexivity|].
      apply (bool_decide_unpack _). by vm_compute.
Defined.

Lemma get_video_input_returns_witness :
  let pf := sample_platform ["clips/notes.txt"; "clips/take8.MKV"] in
  os_path_exists pf "clips/take8.MKV" = true.
Proof.
  intros pf.
  apply (get_video_input_returns pf
           ["clips/notes.txt"; "Y"; " 'clips/take8.MKV' "; "n"] ["n"]).
  reflexivity.
Defined.

Lemma get_video_input_gives_up_witness :
  let pf := sample_platform ["clips/take8.mkv"] in
  ∃ pre line retry,
    ["notes.txt"; "yes"; "clips/take9.mkv"; "n"; "clips/take8.mkv"]
    = pre ++ line :: retry :: ["clips/take8.mkv"]
    ∧ validate_input_file pf (clean_path pf line) = false
    ∧ str_lower pf retry ∉ ["y"; "yes"].
Proof.
  intros pf.
  apply (get_video_input_gives_up pf
           ["notes.txt"; "yes"; "clips/take9.mkv"; "n"; "clips/take8.mkv"]
           ["clips/take8.mkv"]).
  reflexivity.
Defined.

Lemma get_video_input_reads_witness :
  let pf := sample_platform ["r1test.mp4"] in
  ∃ read, read ≠ [] ∧ ["n"; "movie.avi"; "n"; "y"] = read ++ ["y"].
Proof.
  intros pf.
  destruct (get_video_input_reads pf ["n"; "movie.avi"; "n"; "y"])
    as [_ Hread].
  apply (Hread (Ok None) ["y"]). reflexivity.
Defined.

Lemma get_video_input_default_witness :
  let pf := sample_platform ["./video/r1test.mp4"; "r1test.mp4"] in
  get_video_input pf ["n"; "r1test.mp4"] = (Ok (Some "r1test.mp4"), [])
  ∧ get_video_input pf ["YES"; "r1test.mp4"]
    = (Ok (Some "./video/r1test.mp4"), ["r1test.mp4"]).
Proof.
  intros pf. split.
  - rewrite (get_video_input_default pf
               ["../video/r1test.mp4"] ["r1test.mp4"] "./video/r1test.mp4");
      [reflexivity|reflexivity|by repeat constructor|reflexivity].
  - rewrite (get_video_input_default pf
               ["../video/r1test.mp4"] ["r1test.mp4"] "./video/r1test.mp4");
      [reflexivity|reflexivity|by repeat constructor|reflexivity].
Defined.

Lemma generator_failure_loses_results_witness :
  let w := sample_world (Some "r1test.mp4")
             (Ok (sample_analyzer_no_script (Some observation_events)
                    observation_events)) in
  (main w []).1 = Raise (OtherError "cannot write the script")
  ∧ (CallGenerateRobotScript ∈ calls_of w)
  ∧ (CallSaveResults ∉ calls_of w)
  ∧ exit_status w = 1.
Proof.
  intros w.
  apply (generator_failure_loses_results w "r1test.mp4"
           (sample_analyzer_no_script (Some observation_events)
              observation_events)
           (@mk_event float_numbers "consult_sheets" 0%float 2%float 2%float)
           [@mk_event float_numbers "turn_sheets" 2%float 3.5%float 1.5%float]
           (@mk_event float_numbers "consult_sheets" 0%float 2%float 2%float)
           [@mk_event float_numbers "turn_sheets" 2%float 3.5%float 1.5%float]).
  - repeat split; discriminate.
  - eexists. reflexivity.
  - eexists. reflexivity.
  - reflexivity.
Defined.

Lemma table_failure_aborts_witness :
  let untyped : event := <["duration" := VNum 1%float]> ∅ in
  let w := sample_world (Some "r1test.mp4")
             (Ok (sample_analyzer (Some [untyped]) [])) in
  (main w []).1 = Raise (KeyError (VStr "type"))
  ∧ calls_of w = [CallSetupDirectories; CallGetVideoInput;
                  CallInit "r1test.mp4"; CallAnalyzeVideo;
                  CallSelectRobotActions]
  ∧ exit_status w = 1.
Proof.
  intros untyped w.
  apply (table_failure_aborts w "r1test.mp4"
           (sample_analyzer (Some [untyped]) []) untyped [] []).
  - repeat split; discriminate.
  - left. reflexivity.
Defined.

Lemma generator_called_only_on_selection_witness :
  let w := sample_world (Some "r1test.mp4")
             (Ok (sample_analyzer (Some observation_events)
                    observation_events)) in
  ∃ path analyzer ev evs s selected,
    reaches_tables w path analyzer ev evs (s :: selected)
    ∧ is_Ok (display_events_summary (ev :: evs))
    ∧ is_Ok (display_detailed_events (ev :: evs)).
Proof.
  intros w. apply (generator_called_only_on_selection w).
  apply (bool_decide_unpack _). by vm_compute.
Defined.

Lemma summary_counts_add_up_witness :
  ∃ report,
    display_events_summary
      [ mk_event "picking_left" 0%float 2%float 2%float;
        mk_event "assemble_system" 2%float 3%float 1%float;
        mk_event "picking_left" 3%float 3.5%float 0.5%float ]
    = Ok report
    ∧ total_count (report_rows report) = 3%nat.
Proof.
  eexists. split; [reflexivity|].
  eapply (summary_counts_add_up
            [ @mk_event float_numbers "picking_left" 0%float 2%float 2%float;
              @mk_event float_numbers "assemble_system" 2%float 3%float 1%float;
              @mk_event float_numbers "picking_left" 3%float 3.5%float 0.5%float ]).
  reflexivity.
Defined.

Lemma summary_mixed_kinds_witness :
  let ev1 : event := <["type" := VStr "picking_left"]> ∅ in
  let ev2 : event := <["type" := VNum 7%float]> ∅ in
  display_events_summary [ev1; ev2] = Raise TypeError.
Proof.
  intros ev1 ev2.
  apply (summary_mixed_kinds [ev1; ev2] ev1 ev2).
  - repeat constructor; by eexists.
  - apply float_printable_sum.
  - intros k. destruct (float_printable_sum
                          (stored_duration <$> events_of_kind k [ev1; ev2]))
      as (t & Ht & _). by exists t.
  - apply list_elem_of_here.
  - by exists "picking_left".
  - apply list_elem_of_further, list_elem_of_here.
  - by exists 7%float.
Defined.

Lemma summary_first_bad_event_witness :
  let good := mk_event "picking_left" 0%float 2%float 2%float in
  let untyped : event := <["duration" := VNum 1%float]> ∅ in
  let unsummable : event :=
    <["type" := VStr "turn_sheets"]> (<["duration" := VStr "1.5s"]> ∅) in
  display_events_summary ([good] ++ untyped :: [unsummable])
  = Raise (KeyError (VStr "type"))
  ∧ display_events_summary ([good] ++ unsummable :: [untyped])
    = Raise TypeError.
Proof.
  intros good untyped unsummable.
  assert (Hkinds : ∀ k, is_Some (sum_from_zero
                     (stored_duration <$> events_of_kind k [good]))).
  { intros k. destruct (float_printable_sum
                          (stored_duration <$> events_of_kind k [good]))
      as (t & Ht & _). by exists t. }
  split.
  - apply (summary_first_bad_event [good] [unsummable] untyped).
    + repeat constructor; by eexists.
    + by eexists.
    + exact Hkinds.
    + by intros [[? [=]] _].
  - apply (summary_first_bad_event [good] [untyped] unsummable).
    + repeat constructor; by eexists.
    + by eexists.
    + exact Hkinds.
    + by intros [_ [=]].
Defined.

(** With [int] durations: [10 ** 400] is added, but the total is not
    rendered. *)
Lemma summary_overflow_witness :
  let ev : gmap string (@pyval int_numbers) :=
    <["type" := @VStr int_numbers "picking_left"]>
      (<["duration" := @VNum int_numbers (10 ^ 400)]> ∅) in
  @display_events_summary int_numbers ([] ++ [ev]) = Raise OverflowError.
Proof.
  intros ev.
  destruct (summary_overflow (N := int_numbers) [] [] ev) as [_ Hprint].
  - repeat constructor; by eexists.
  - by eexists.
  - intros k. by eexists.
  - apply (Hprint (10 ^ 400)).
    + reflexivity.
    + intros k. apply int_sum_from.
    + by vm_compute.
Defined.

Lemma detailed_rows_follow_events_witness :
  ∃ rows,
    display_detailed_events observation_events = Ok rows
    ∧ length rows = 2%nat.
Proof.
  eexists. split; [reflexivity|].
  eapply (detailed_rows_follow_events observation_events).
  reflexivity.
Defined.

Lemma detailed_listing_outcome_witness :
  let good := mk_event "picking_left" 0%float 2%float 2%float in
  let timeless : event :=
    <["type" := VStr "turn_sheets"]> (<["end_time" := VNone]> ∅) in
  display_detailed_events [good; timeless] = Raise TypeError.
Proof.
  intros good timeless.
  destruct (detailed_listing_outcome [good; timeless]) as [_ Hbad].
  destruct (Hbad [good] timeless []) as [_ Htyped].
  - reflexivity.
  - repeat constructor. by exists (VStr "picking_left"), 0%float, 2%float.
  - destruct (Htyped (VStr "turn_sheets")) as [_ Hshown]; [reflexivity|].
    destruct Hshown as (_ & _ & Hstart); [reflexivity|].
    destruct (Hstart 0%float) as [_ Hend]; [reflexivity|].
    destruct Hend as (_ & Hnone & _); [reflexivity|].
    apply Hnone. reflexivity.
Defined.

Lemma engine_gets_existing_path_witness :
  let pf := sample_platform ["clips/take8.mkv"] in
  let w := sample_world None
             (Ok (sample_analyzer (Some observation_events) [])) in
  os_path_exists pf "clips/take8.mkv" = true
  ∧ exit_status (interactive_world pf ∅ ["clip.txt"; "no"] w) = 1.
Proof.
  intros pf w. split.
  - destruct (engine_gets_existing_path pf ∅ ["clips/take8.mkv"] w)
      as [Hinit _].
    apply (Hinit "clips/take8.mkv").
    apply (bool_decide_unpack _). by vm_compute.
  - destruct (engine_gets_existing_path pf ∅ ["clip.txt"; "no"] w)
      as [_ Hnone].
    apply Hnone. reflexivity.
Defined.

Lemma blocked_directory_stops_run_witness :
  let pf := sample_platform ["r1test.mp4"] in
  let w := sample_world None
             (Ok (sample_analyzer (Some observation_events) [])) in
  exit_status (interactive_world pf {[ "temp" := File ]} ["y"] w) = 1.
Proof.
  intros pf w.
  apply (blocked_directory_stops_run pf {[ "temp" := File ]} ["y"] w "temp").
  - apply (bool_decide_unpack _). by vm_compute.
  - reflexivity.
Defined.
